(** * Multiline log aggregation (promtail multiline plugin)

    A shallow embedding of [multiline/multiline.go]: the pattern extractor
    ([disjoint], [selection]), the record accumulator ([multilineEntry]), the
    four mode handlers, the flush path and the constructor, followed by the
    properties of the specification that are stated about them.

    Conventions of the embedding.
    - A Go [string] is a [string] of 8-bit characters; indices are byte
      offsets, as in Go.
    - [time.Time] and [time.Duration] are integers (nanoseconds); the zero
      [time.Time] is [0]; [time.Now()] is an explicit argument [now].
    - A [model.LabelSet] is a finite map from label names to label values.
    - The downstream handler [api.EntryHandler] is a function of the calls it
      has received so far and of the current call; the calls made are
      recorded in a trace that is threaded through every operation.
    - A run-time panic of the Go program (slice or index out of range, nil
      pointer dereference, [time.NewTicker] with a non-positive interval) is
      the [Panic] outcome of the [result] monad.
    - The mutex is not modelled: every operation below is one critical
      section.
    - What a logger writes is not part of the state; a log call on the nil
      logger panics, on any other logger it returns. *)

From Stdlib Require Import ZArith Lia.
From stdpp Require Import base option list strings gmap fin_maps.

Local Open Scope Z_scope.

(** ** Outcomes: a returned value or a Go panic *)

Inductive result (A : Type) : Type :=
  | Ret (a : A)
  | Panic (msg : string).
Arguments Ret {A} a.
Arguments Panic {A} msg.

#[global] Instance result_ret : MRet result := fun A a => Ret a.
#[global] Instance result_bind : MBind result := fun A B f m =>
  match m with
  | Ret a => f a
  | Panic msg => Panic msg
  end.

Definition returns {A} (m : result A) : Prop := ∃ a, m = Ret a.

(** ** Go strings *)

Definition len (s : string) : Z := Z.of_nat (String.length s).

(** [s[lo:hi]]: panics unless [0 <= lo <= hi <= len(s)]. *)
Definition slice (s : string) (lo hi : Z) : result string :=
  if (0 <=? lo) && (lo <=? hi) && (hi <=? len s)
  then Ret (String.substring (Z.to_nat lo) (Z.to_nat (hi - lo)) s)
  else Panic "slice bounds out of range".

(** [strings.Join(l, "")]. *)
Definition Join (l : list string) : string := String.concat "" l.

(** [join] of the source: the separator is only used when [a] is not empty. *)
Definition join (a sep b : string) : string :=
  let r := a in
  let r := if 0 <? len a then r +:+ sep else r in
  r +:+ b.

(** ** Compiled regular expressions

    The regular-expression engine is Go's [regexp] package.  A compiled
    expression is represented by the two operations the source uses:
    [Match] and [FindAllSubmatchIndex] (with [n = -1]).  The latter returns,
    for every successive non-overlapping match, the flat list
    [b0; e0; b1; e1; ...] of the byte offsets of the match and of its
    capturing groups, [-1; -1] for a group that did not participate. *)

Record Regexp : Type := {
  Match : string → bool;
  FindAllSubmatchIndex : string → list (list Z)
}.

(** What the engine guarantees about the offsets it returns for the line [s]:
    they come in pairs and none exceeds [len s]. *)
Definition match_ok (s : string) (m : list Z) : Prop :=
  Nat.Even (length m) ∧ Forall (λ x, x <= len s) m.

Definition matches_ok (s : string) (ms : list (list Z)) : Prop :=
  Forall (match_ok s) ms.

Definition regexp_ok (e : Regexp) : Prop :=
  ∀ s, matches_ok s (FindAllSubmatchIndex e s).

(** ** Pattern extractor *)

(** The three loop variables of [disjoint] that survive an iteration. *)
Record cursor : Type := {
  sel : list string;
  inv : list string;
  last : Z
}.

(** The inner loop of [disjoint], [for i, n := 2, len(match); i < n; i += 2],
    over the part of [match] from index [i] on. *)
Fixpoint groups (s : string) (m : list Z) (k : cursor) : result cursor :=
  match m with
  | [] => Ret k
  | beg :: m' =>
      if beg <? 0 then
        match m' with
        | [] => Ret k
        | _ :: m'' => groups s m'' k
        end
      else
        match m' with
        | [] => Panic "index out of range"
        | end_ :: m'' =>
            if (end_ >? beg) && (beg >=? last k) then
              i ← slice s (last k) beg;
              x ← slice s beg end_;
              groups s m'' {| sel := sel k ++ [x]; inv := inv k ++ [i]; last := end_ |}
            else groups s m'' k
        end
  end.

(** The outer loop, [for _, match := range matches]. *)
Fixpoint each_match (s : string) (ms : list (list Z)) (k : cursor) : result cursor :=
  match ms with
  | [] => Ret k
  | m :: ms' => k' ← groups s (drop 2 m) k; each_match s ms' k'
  end.

Definition disjoint (expression : Regexp) (s : string) : result (string * string) :=
  let matches := FindAllSubmatchIndex expression s in
  k ← each_match s matches {| sel := []; inv := []; last := 0 |};
  inv' ← (if last k <? len s
          then t ← slice s (last k) (len s); Ret (inv k ++ [t])
          else Ret (inv k));
  Ret (Join (sel k), Join inv').

(** [selection]: a nil expression leaves the line unaltered. *)
Definition selection (expression : option Regexp) (s : string) : result string :=
  match expression with
  | None => Ret s
  | Some e => '(sel, _) ← disjoint e s; Ret sel
  end.

(** ** Label sets and errors *)

Abbreviation LabelSet := (gmap string string).

(** [model.LabelSet.Merge] of the Prometheus library: a fresh set holding the
    labels of [l], overwritten by those of [other]. *)
Definition Merge (l other : LabelSet) : LabelSet := other ∪ l.

(** [model.LabelSet.Clone]: label sets are values here. *)
Definition Clone (l : LabelSet) : LabelSet := l.

(** An [error] value is represented by its message. *)
Abbreviation error := string (only parsing).

(** [util.MultiError]: [Add] keeps the non-nil errors in order, [Err] is nil
    when none was added. *)
Abbreviation MultiError := (list string) (only parsing).

Definition Add (es : MultiError) (err : option error) : MultiError :=
  match err with
  | None => es
  | Some e => es ++ [e]
  end.

Definition Err (es : MultiError) : option MultiError :=
  match es with
  | [] => None
  | _ => Some es
  end.

(** ** Machine integers: the line counter is a Go [int] (64 bits) *)

Definition wrap64 (z : Z) : Z := (z + 2^63) mod 2^64 - 2^63.

(** ** The record accumulator *)

Record multilineEntry : Type := {
  enrollTime : Z;
  labels : LabelSet;
  timestamp : Z;
  key : string;
  entry : string;
  lines : Z
}.

Definition reset (d : multilineEntry) : multilineEntry :=
  {| enrollTime := enrollTime d;
     labels := ∅;
     timestamp := timestamp d;
     key := key d;
     entry := "";
     lines := 0 |}.

(** [init]; [now] is the value of [time.Now()]. *)
Definition init (d : multilineEntry) (labels' : LabelSet) (t : Z) (entry' : string)
    (now : Z) : multilineEntry :=
  {| enrollTime := now;
     labels := Clone labels';
     timestamp := t;
     key := key d;
     entry := entry';
     lines := 1 |}.

(** [append]: the receiver of [Merge] is the incoming set, as in the source. *)
Definition append (d : multilineEntry) (labels' : LabelSet) (entry' delimiter : string)
    : multilineEntry :=
  {| enrollTime := enrollTime d;
     labels := Merge labels' labels';
     timestamp := timestamp d;
     key := key d;
     entry := join (entry d) delimiter entry';
     lines := wrap64 (lines d + 1) |}.

Definition set_key (d : multilineEntry) (k : string) : multilineEntry :=
  {| enrollTime := enrollTime d;
     labels := labels d;
     timestamp := timestamp d;
     key := k;
     entry := entry d;
     lines := lines d |}.

Definition newMultiLineEntry (k : string) : multilineEntry :=
  {| enrollTime := 0; labels := ∅; timestamp := 0; key := k; entry := ""; lines := 0 |}.

(** ** The downstream handler *)

(** One call [next.Handle(labels, t, entry)]. *)
Record Delivery : Type := {
  d_labels : LabelSet;
  d_time : Z;
  d_entry : string
}.

(** The handler answers a call with nil or an error; its answer may depend
    on the calls it received before. *)
Definition Handler : Type := list Delivery → Delivery → option error.

(** The handler that accepts every record (the constructor's replacement
    for a nil handler). *)
Definition nop : Handler := λ _ _, None.

(** The calls made so far. *)
Abbreviation World := (list Delivery) (only parsing).

Definition call (h : Handler) (w : World) (d : Delivery) : World * option error :=
  (w ++ [d], h w d).

(** What the handler is given for a record: [t.labels, t.timestamp, t.entry]. *)
Definition delivery_of (t : multilineEntry) : Delivery :=
  {| d_labels := labels t; d_time := timestamp t; d_entry := entry t |}.

Definition deliver (h : Handler) (w : World) (t : multilineEntry) : World * option error :=
  call h w (delivery_of t).

(** ** The parser *)

(** The mode handler stored in the parser: one of the four handler functions. *)
Inductive ModeHandler : Type := NewLineMode | GroupMode | UnorderedGroupMode | ContinueMode.

(** A go-kit [log.Logger]: the context it was given by [log.With].  What
    it writes goes to its sink, outside the parser. *)
Record Logger : Type := {
  context : list (string * string)
}.

(** [log.With(logger, key, value)]. *)
Definition With (l : Logger) (k v : string) : Logger :=
  {| context := context l ++ [(k, v)] |}.

(** [level.Warn(l).Log(...)], [level.Debug(l).Log(...)]: the call reaches
    the logger behind the level wrapper and panics when that logger is nil. *)
Definition Log (l : option Logger) : result unit :=
  match l with
  | Some _ => Ret tt
  | None => Panic "nil pointer dereference"
  end.

(** A [time.Ticker]: its interval and whether [Stop] was called on it. *)
Record Ticker : Type := {
  interval : Z;
  stopped : bool
}.

Definition NewTicker (d : Z) : result Ticker :=
  if d <=? 0 then Panic "non-positive interval for NewTicker"
  else Ret {| interval := d; stopped := false |}.

Definition StopTicker (t : Ticker) : Ticker :=
  {| interval := interval t; stopped := true |}.

Record multiLineParser : Type := {
  modeHandler : ModeHandler;
  expressionRegex : Regexp;
  firstLineRegex : option Regexp;
  nextLineRegex : option Regexp;
  maxWait : Z;
  separator : string;
  logger : option Logger;
  multitrack : bool;
  multilines : list multilineEntry;
  multiline : option multilineEntry;
  flusher : option Ticker;
  next : Handler
}.

Definition set_multiline (c : multiLineParser) (ml : multilineEntry) : multiLineParser :=
  {| modeHandler := modeHandler c; expressionRegex := expressionRegex c;
     firstLineRegex := firstLineRegex c; nextLineRegex := nextLineRegex c;
     maxWait := maxWait c; separator := separator c; logger := logger c;
     multitrack := multitrack c;
     multilines := multilines c; multiline := Some ml;
     flusher := flusher c; next := next c |}.

Definition set_multilines (c : multiLineParser) (l : list multilineEntry) : multiLineParser :=
  {| modeHandler := modeHandler c; expressionRegex := expressionRegex c;
     firstLineRegex := firstLineRegex c; nextLineRegex := nextLineRegex c;
     maxWait := maxWait c; separator := separator c; logger := logger c;
     multitrack := multitrack c;
     multilines := l; multiline := multiline c;
     flusher := flusher c; next := next c |}.

Definition set_flusher (c : multiLineParser) (f : option Ticker) : multiLineParser :=
  {| modeHandler := modeHandler c; expressionRegex := expressionRegex c;
     firstLineRegex := firstLineRegex c; nextLineRegex := nextLineRegex c;
     maxWait := maxWait c; separator := separator c; logger := logger c;
     multitrack := multitrack c;
     multilines := multilines c; multiline := multiline c;
     flusher := f; next := next c |}.


(** Dereferencing [c.multiline]. *)
Definition deref (p : option multilineEntry) : result multilineEntry :=
  match p with
  | Some ml => Ret ml
  | None => Panic "nil pointer dereference"
  end.

(** ** Flushing *)

(** The condition under which [flush] hands a non-empty record over. *)
Definition expired (force : bool) (now : Z) (c : multiLineParser) (t : multilineEntry) : bool :=
  force || (now - enrollTime t >? maxWait c).

(** The loop of the multi-track branch of [flush]: the records still to be
    visited, the next generation built so far, the calls and the errors. *)
Fixpoint sweep (force : bool) (now : Z) (c : multiLineParser) (ts : list multilineEntry)
    (nextGen : list multilineEntry) (w : World) (err : MultiError)
    : list multilineEntry * World * MultiError :=
  match ts with
  | [] => (nextGen, w, err)
  | t :: ts' =>
      if lines t =? 0 then sweep force now c ts' nextGen w err
      else if expired force now c t then
        let '(w', e) := deliver (next c) w t in
        sweep force now c ts' nextGen w' (Add err e)
      else sweep force now c ts' (nextGen ++ [t]) w err
  end.

Definition flush (force : bool) (now : Z) (c : multiLineParser) (w : World)
    : result (multiLineParser * World * option MultiError) :=
  if multitrack c then
    let '(nextGen, w', err) := sweep force now c (multilines c) [] w [] in
    Ret (set_multilines c nextGen, w', Err err)
  else
    t ← deref (multiline c);
    if (lines t >? 0) && expired force now c t then
      let '(w', e) := deliver (next c) w t in
      Ret (set_multiline c (reset t), w', Err (Add [] e))
    else Ret (c, w, Err []).

Definition Flush (now : Z) (c : multiLineParser) (w : World)
    : result (multiLineParser * World * option MultiError) :=
  flush true now c w.

(** [Stop]: the result of the final flush is dropped. *)
Definition Stop (now : Z) (c : multiLineParser) (w : World)
    : result (multiLineParser * World * option error) :=
  let c := match flusher c with
           | Some f => set_flusher c (Some (StopTicker f))
           | None => c
           end in
  '(c', w', _) ← flush true now c w;
  Ret (c', w', None).

(** One tick of the goroutine started by [startFlusher]: [flush false],
    and a log call on [c.logger] when the flush returned an error. *)
Definition tick (now : Z) (c : multiLineParser) (w : World)
    : result (multiLineParser * World) :=
  '(c', w', err) ← flush false now c w;
  _ ← match err with
      | Some _ => Log (logger c')
      | None => Ret tt
      end;
  Ret (c', w').

(** The goroutine started by [startFlusher], for [n] ticks of a ticker
    that fires every [period] on schedule: the first tick comes [period]
    after [now]. *)
Fixpoint tick_loop (n : nat) (now period : Z) (c : multiLineParser) (w : World)
    : result (multiLineParser * World) :=
  match n with
  | O => Ret (c, w)
  | S n' =>
      '(c', w') ← tick (now + period) c w;
      tick_loop n' (now + period) period c' w'
  end.

(** ** Mode handlers

    Every handler receives the parser, the calls made so far, the line with
    its labels and timestamp, and the clock reading [now] that [init] takes.
    It returns the new parser, the calls and the error of the handler. *)

Definition handled : Type := multiLineParser * World * option error.

Definition handleNewLineMode (c : multiLineParser) (w : World) (labels' : LabelSet)
    (t : Z) (entry' : string) (now : Z) : result handled :=
  ml ← deref (multiline c);
  if negb (Match (expressionRegex c) entry') then
    line ← selection (nextLineRegex c) entry';
    Ret (set_multiline c (append ml labels' line (separator c)), w, None)
  else
    let '(w', err) := if lines ml >? 0 then deliver (next c) w ml else (w, None) in
    line ← selection (firstLineRegex c) entry';
    Ret (set_multiline c (init ml labels' t line now), w', err).

Definition handleGroupMode (c : multiLineParser) (w : World) (labels' : LabelSet)
    (t : Z) (entry' : string) (now : Z) : result handled :=
  ml ← deref (multiline c);
  '(key', inv') ← disjoint (expressionRegex c) entry';
  if String.eqb (key ml) key' then
    line ← match nextLineRegex c with
           | Some _ => selection (nextLineRegex c) entry'
           | None => Ret inv'
           end;
    Ret (set_multiline c (append ml labels' line (separator c)), w, None)
  else
    let '(w', err) := if lines ml >? 0 then deliver (next c) w ml else (w, None) in
    line ← selection (firstLineRegex c) entry';
    Ret (set_multiline c (set_key (init ml labels' t line now) key'), w', err).

(** The search loop of [fetchLine]: the position of the first record with
    the given key. *)
Fixpoint find_key (k : string) (ts : list multilineEntry) : option nat :=
  match ts with
  | [] => None
  | t :: ts' => if String.eqb (key t) k then Some 0%nat else S <$> find_key k ts'
  end.

(** [fetchLine]: the pointer it returns is a position in [c.multilines]. *)
Definition fetchLine (c : multiLineParser) (k : string) : multiLineParser * nat :=
  match find_key k (multilines c) with
  | Some i => (c, i)
  | None => (set_multilines c (multilines c ++ [newMultiLineEntry k]), length (multilines c))
  end.

Definition handleUnorderedGroupMode (c : multiLineParser) (w : World) (labels' : LabelSet)
    (t : Z) (entry' : string) (now : Z) : result handled :=
  '(key', inv') ← disjoint (expressionRegex c) entry';
  let '(c, p) := fetchLine c key' in
  ml ← deref (multilines c !! p);
  if lines ml >? 0 then
    line ← match nextLineRegex c with
           | Some _ => selection (nextLineRegex c) entry'
           | None => Ret inv'
           end;
    Ret (set_multilines c (<[p := append ml labels' line (separator c)]> (multilines c)),
         w, None)
  else
    line ← selection (firstLineRegex c) entry';
    Ret (set_multilines c (<[p := set_key (init ml labels' t line now) key']> (multilines c)),
         w, None).

Definition handleContinueMode (c : multiLineParser) (w : World) (labels' : LabelSet)
    (t : Z) (entry' : string) (now : Z) : result handled :=
  ml ← deref (multiline c);
  line ← selection (Some (expressionRegex c)) entry';
  if negb (String.eqb line "") then
    if lines ml >? 0 then
      x ← selection (nextLineRegex c) line;
      Ret (set_multiline c (append ml labels' x (separator c)), w, None)
    else
      x ← selection (firstLineRegex c) line;
      Ret (set_multiline c (init ml labels' t x now), w, None)
  else
    if lines ml >? 0 then
      x ← selection (nextLineRegex c) entry';
      let ml := append ml labels' x (separator c) in
      let '(w', err) := deliver (next c) w ml in
      Ret (set_multiline c (reset ml), w', err)
    else
      let '(w', err) :=
        call (next c) w {| d_labels := labels'; d_time := t; d_entry := entry' |} in
      Ret (c, w', err).

(** [Handle]: a nil label set is replaced by the empty one, then the mode
    handler chosen at construction runs. *)
Definition Handle (c : multiLineParser) (w : World) (labels' : option LabelSet)
    (t : Z) (entry' : string) (now : Z) : result handled :=
  let labels' := default ∅ labels' in
  match modeHandler c with
  | NewLineMode => handleNewLineMode c w labels' t entry' now
  | GroupMode => handleGroupMode c w labels' t entry' now
  | UnorderedGroupMode => handleUnorderedGroupMode c w labels' t entry' now
  | ContinueMode => handleContinueMode c w labels' t entry' now
  end.

(** ** Construction *)

Definition ErrEmptyMultiLineConfig : string := "empty configuration".
Definition ErrCouldNotCompileMultiLineExpressionRegex : string := "could not compile expression".
Definition ErrCouldNotCompileMultiLineFirstLineRegex : string := "could not compile first_expression".
Definition ErrCouldNotCompileMultiLineNextLineRegex : string := "could not compile next_expression".
Definition ErrCouldMultiLineExpressionRequiredRegex : string := "expression is required".
Definition ErrMultiLineUnsupportedMode : string := "unsupported mode".
Definition ErrMultiLineUnvalidMaxWaitTime : string := "invalid max_idle_duration duration".
Definition ErrMultiLineModeRequireMaxWait : string := "mode require max_idle_duration duration > 0 ".

Record Config : Type := {
  Mode : string;
  Expression : string;
  FirstLineExpression : string;
  NextLineExpression : string;
  IdleDuration : string;
  Separator : string
}.

(** [time.Second], in nanoseconds. *)
Definition Second : Z := 1000000000.

(** [startFlusher]: the ticker interval is half of [maxWait] (Go's integer
    division).  The goroutine it starts calls [flush false] at every tick. *)
Definition startFlusher (c : multiLineParser) : result multiLineParser :=
  f ← NewTicker (maxWait c ÷ 2);
  Ret (set_flusher c (Some f)).

(** The [switch config.Mode]: the handler, [multitrack] and [requireMaxWait]. *)
Definition mode_switch (m : string) : option (ModeHandler * bool * bool) :=
  if String.eqb m "newline" then Some (NewLineMode, false, false)
  else if String.eqb m "group" then Some (GroupMode, false, true)
  else if String.eqb m "unordered_group" then Some (UnorderedGroupMode, true, true)
  else if String.eqb m "continue" then Some (ContinueMode, false, false)
  else None.

Section Construction.

(** [regexp.Compile] and [time.ParseDuration] of the Go library; [None] is
    their error result (the cause wrapped into the returned error is not
    represented). *)
Variable Compile : string → option Regexp.
Variable ParseDuration : string → option Z.

(** The primary expression: required, and it must compile. *)
Definition expression_config (config : Config) : error + Regexp :=
  if 0 <? len (Expression config) then
    match Compile (Expression config) with
    | None => inl ErrCouldNotCompileMultiLineExpressionRegex
    | Some expr => inr expr
    end
  else inl ErrCouldMultiLineExpressionRequiredRegex.

(** The first-line and next-line expressions: compiled when not empty. *)
Definition optional_config (src : string) (msg : error) : error + option Regexp :=
  if 0 <? len src then
    match Compile src with
    | None => inl msg
    | Some expr => inr (Some expr)
    end
  else inr None.

(** [maxWait]: five seconds unless [max_idle_duration] is given. *)
Definition max_wait_config (config : Config) : error + Z :=
  if negb (String.eqb (IdleDuration config) "") then
    match ParseDuration (IdleDuration config) with
    | None => inl ErrMultiLineUnvalidMaxWaitTime
    | Some d => inr d
    end
  else inr (5 * Second).

(** [NewMultiLineParser(logger, config, next)]: [inl] is the returned
    error (with a nil instance), [inr] the instance (with a nil error).
    [ml.logger] is set only when [logger] is not nil, and the two warnings
    of the constructor are written to [ml.logger]. *)
Definition NewMultiLineParser (logger' : option Logger) (config : option Config)
    (next' : option Handler) : result (error + multiLineParser) :=
  match config with
  | None => Ret (inl ErrEmptyMultiLineConfig)
  | Some config =>
  match expression_config config with
  | inl e => Ret (inl e)
  | inr expr =>
  match optional_config (FirstLineExpression config)
          ErrCouldNotCompileMultiLineFirstLineRegex with
  | inl e => Ret (inl e)
  | inr first =>
  match optional_config (NextLineExpression config)
          ErrCouldNotCompileMultiLineNextLineRegex with
  | inl e => Ret (inl e)
  | inr next_line =>
  match max_wait_config config with
  | inl e => Ret (inl e)
  | inr wait =>
  match mode_switch (Mode config) with
  | None => Ret (inl ErrMultiLineUnsupportedMode)
  | Some (handler, multitrack', requireMaxWait) =>
      let ml :=
        {| modeHandler := handler;
           expressionRegex := expr;
           firstLineRegex := first;
           nextLineRegex := next_line;
           maxWait := wait;
           separator := Separator config;
           logger := (λ l, With l "component" "multiline") <$> logger';
           multitrack := multitrack';
           multilines := [];
           multiline := if multitrack' then None else Some (newMultiLineEntry "");
           flusher := None;
           next := default nop next' |} in
      _ ← match next' with
          | None => Log (logger ml)
          | Some _ => Ret tt
          end;
      if wait >? 0 then
        ml ← startFlusher ml; Ret (inr ml)
      else if requireMaxWait then Ret (inl ErrMultiLineModeRequireMaxWait)
      else _ ← Log (logger ml); Ret (inr ml)
  end end end end end end.

End Construction.

(** ** Running a parser over a sequence of lines *)

(** One incoming line: its labels, timestamp and text, and the clock reading
    when it is handled. *)
Record Line : Type := {
  l_labels : option LabelSet;
  l_time : Z;
  l_text : string;
  l_now : Z
}.

(** [Handle] applied to each line in turn; the errors returned are collected
    in order. *)
Fixpoint HandleAll (c : multiLineParser) (w : World) (ls : list Line)
    : result (multiLineParser * World * list (option error)) :=
  match ls with
  | [] => Ret (c, w, [])
  | l :: ls' =>
      '(c', w', e) ← Handle c w (l_labels l) (l_time l) (l_text l) (l_now l);
      '(c'', w'', es) ← HandleAll c' w' ls';
      Ret (c'', w'', e :: es)
  end.

(** ** Sample expressions

    The behaviour of Go's engine for the expressions of the test suite, on
    lines without line breaks. *)

Module Samples.

Definition is_space (a : Ascii.ascii) : bool :=
  let n := Ascii.nat_of_ascii a in
  (n =? 32)%nat || (n =? 9)%nat || (n =? 10)%nat || (n =? 12)%nat || (n =? 13)%nat.

(** Length of the longest prefix without white space. *)
Fixpoint word (s : string) : Z :=
  match s with
  | String a s' => if is_space a then 0 else 1 + word s'
  | EmptyString => 0
  end.

Fixpoint ends_with_backslash (s : string) : bool :=
  match s with
  | EmptyString => false
  | String a EmptyString => (Ascii.nat_of_ascii a =? 92)%nat
  | String _ s' => ends_with_backslash s'
  end.

(** The expression of the group tests: one group holding the leading
    run of characters other than white space. *)
Definition first_word : Regexp :=
  {| Match := λ s, 0 <? word s;
     FindAllSubmatchIndex := λ s,
       if 0 <? word s then [[0; word s; 0; word s]] else [] |}.

(** The byte at a position of a line, if there is one, and whether it lies
    in a range. *)
Definition byte_in (s : string) (i lo hi : nat) : bool :=
  match String.get i s with
  | Some a => ((lo <=? Ascii.nat_of_ascii a) && (Ascii.nat_of_ascii a <=? hi))%nat
  | None => false
  end.

(** The size [utf8.DecodeRune] gives for the first character of a line: the
    length of a well-formed UTF-8 sequence, one for any other first byte,
    zero for the empty line. *)
Definition rune_size (s : string) : Z :=
  match s with
  | EmptyString => 0
  | String a _ =>
      let p0 := Ascii.nat_of_ascii a in
      if (p0 <? 194)%nat then 1
      else if (p0 <=? 223)%nat then
        if byte_in s 1 128 191 then 2 else 1
      else if (p0 <=? 239)%nat then
        let lo := if (p0 =? 224)%nat then 160%nat else 128%nat in
        let hi := if (p0 =? 237)%nat then 159%nat else 191%nat in
        if byte_in s 1 lo hi && byte_in s 2 128 191 then 3 else 1
      else if (p0 <=? 244)%nat then
        let lo := if (p0 =? 240)%nat then 144%nat else 128%nat in
        let hi := if (p0 =? 244)%nat then 143%nat else 191%nat in
        if byte_in s 1 lo hi && byte_in s 2 128 191 && byte_in s 3 128 191 then 4 else 1
      else 1
  end.

(** The expression of the newline test: a first character other than a
    blank, no group; the match is that character. *)
Definition not_indented : Regexp :=
  {| Match := λ s, match s with
                   | String a _ => negb (Ascii.nat_of_ascii a =? 32)%nat
                   | EmptyString => false
                   end;
     FindAllSubmatchIndex := λ s,
       match s with
       | String a _ =>
           if (Ascii.nat_of_ascii a =? 32)%nat then [] else [[0; rune_size s]]
       | EmptyString => []
       end |}.

(** The expression of the continuation tests: one group holding
    everything before a final backslash. *)
Definition continued : Regexp :=
  {| Match := ends_with_backslash;
     FindAllSubmatchIndex := λ s,
       if ends_with_backslash s then [[0; len s; 0; len s - 1]] else [] |}.

(** An expression known only by the offsets it yields on given lines. *)
Definition tabled (tbl : list (string * list (list Z))) : Regexp :=
  {| Match := λ s, match list_find (λ p, p.1 = s) tbl with
                   | Some (_, (_, _ :: _)) => true
                   | _ => false
                   end;
     FindAllSubmatchIndex := λ s,
       match list_find (λ p, p.1 = s) tbl with
       | Some (_, (_, ms)) => ms
       | None => []
       end |}.

Definition parser (h : ModeHandler) (e : Regexp) (sep : string) (wait : Z)
    (next' : Handler) : multiLineParser :=
  {| modeHandler := h;
     expressionRegex := e;
     firstLineRegex := None;
     nextLineRegex := None;
     maxWait := wait;
     separator := sep;
     logger := Some (With {| context := [] |} "component" "multiline");
     multitrack := match h with UnorderedGroupMode => true | _ => false end;
     multilines := [];
     multiline := match h with UnorderedGroupMode => None | _ => Some (newMultiLineEntry "") end;
     flusher := None;
     next := next' |}.

(** The source text of [continued]; it is written in two parts so that
    it does not contain the closing delimiter of a comment. *)
Definition continued_source : string := "(.*" +:+ ")\\$".

(** [regexp.Compile] on the sources of the three expressions above. *)
Definition Compile (src : string) : option Regexp :=
  if String.eqb src "^(\S+)" then Some first_word
  else if String.eqb src "^[^ ]" then Some not_indented
  else if String.eqb src continued_source then Some continued
  else None.

(** [time.ParseDuration] on a few duration texts. *)
Definition ParseDuration (src : string) : option Z :=
  if String.eqb src "1000s" then Some (1000 * Second)
  else if String.eqb src "10ms" then Some 10000000
  else if String.eqb src "1ns" then Some 1
  else if String.eqb src "0" then Some 0
  else None.

(** The logger handed to the constructor, as the tests hand [util.Logger]. *)
Definition util_Logger : Logger := {| context := [] |}.

Definition config (mode expr sep idle : string) : Config :=
  {| Mode := mode; Expression := expr; FirstLineExpression := "";
     NextLineExpression := ""; IdleDuration := idle; Separator := sep |}.

(** A record with [n] lines, enrolled at [enrolled], without labels. *)
Definition record (k e : string) (n enrolled ts : Z) : multilineEntry :=
  {| enrollTime := enrolled; labels := ∅; timestamp := ts; key := k; entry := e;
     lines := n |}.

(** A handler that refuses every record. *)
Definition failing : Handler := λ _ d, Some ("rejected: " +:+ d_entry d).

(** A handler that refuses the records whose text is [two]. *)
Definition refusing_two : Handler :=
  λ _ d, if String.eqb (d_entry d) "two" then Some "rejected: two" else None.

(** The parser as the constructor leaves it when it is given no logger. *)
Definition without_logger (c : multiLineParser) : multiLineParser :=
  {| modeHandler := modeHandler c; expressionRegex := expressionRegex c;
     firstLineRegex := firstLineRegex c; nextLineRegex := nextLineRegex c;
     maxWait := maxWait c; separator := separator c; logger := None;
     multitrack := multitrack c; multilines := multilines c; multiline := multiline c;
     flusher := flusher c; next := next c |}.

(** A multi-track parser that holds the given records. *)
Definition holding (ts : list multilineEntry) (wait : Z) (next' : Handler)
    : multiLineParser :=
  set_multilines (parser UnorderedGroupMode first_word "" wait next') ts.

(** A single-track parser whose slot is the given record. *)
Definition holding_one (h : ModeHandler) (t : multilineEntry) (wait : Z) (next' : Handler)
    : multiLineParser :=
  set_multiline (parser h first_word "" wait next') t.

Definition line (t : Z) (s : string) : Line :=
  {| l_labels := Some ∅; l_time := t; l_text := s; l_now := t |}.

(** The texts delivered when the lines are handled and the parser is then
    stopped, as the test suite does. *)
Definition delivered (c : multiLineParser) (ls : list string) : result (list string) :=
  '(c', w, _) ← HandleAll c [] (line 0 <$> ls);
  '(_, w', _) ← Stop 0 c' w;
  Ret (d_entry <$> (w' : World)).

End Samples.

(** ** Positional split of a line

    The vocabulary of the round-trip property of the pattern extractor.  A
    mask marks the positions of a line; [select] keeps the characters at the
    marked positions, [interleave] puts two sequences back together along
    the mask. *)

Definition chars (s : string) : list Ascii.ascii := String.list_ascii_of_string s.

Fixpoint select {A} (mask : list bool) (l : list A) : list A :=
  match mask, l with
  | b :: mask', a :: l' => if b then a :: select mask' l' else select mask' l'
  | _, _ => []
  end.

Fixpoint interleave {A} (mask : list bool) (xs ys : list A) : list A :=
  match mask with
  | [] => []
  | true :: mask' =>
      match xs with
      | x :: xs' => x :: interleave mask' xs' ys
      | [] => []
      end
  | false :: mask' =>
      match ys with
      | y :: ys' => y :: interleave mask' xs ys'
      | [] => []
      end
  end.

(** What the loops maintain: [last] is a position of the line, and the
    pieces collected so far split the prefix of the line before [last]. *)
Definition splits (s : string) (k : cursor) : Prop :=
  0 <= last k <= len s ∧
  ∃ mask : list bool,
    length mask = Z.to_nat (last k) ∧
    select mask (chars s) = chars (Join (sel k)) ∧
    select (negb <$> mask) (chars s) = chars (Join (inv k)).

(** ** Vocabulary of the flush properties *)

(** The records the parser holds: the list of the multi-track mode, or the
    single slot. *)
Definition tracked (c : multiLineParser) : list multilineEntry :=
  if multitrack c then multilines c else option_list (multiline c).

(** A record is due at a flush when it holds at least one line and either
    the flush is forced or the record is older than the idle duration. *)
Definition due (force : bool) (now : Z) (c : multiLineParser) (t : multilineEntry) : bool :=
  (0 <? lines t) && (force || (maxWait c <? now - enrollTime t)).

(** The record of the single slot after a flush: reset when it was due. *)
Definition flushed (force : bool) (now : Z) (c : multiLineParser) (t : multilineEntry)
    : multilineEntry :=
  if due force now c t then reset t else t.

(** The state the constructor and the handlers keep the registry in: a
    single-track parser has its slot, and no line counter is negative. *)
Definition registry_ok (c : multiLineParser) : Prop :=
  if multitrack c then Forall (λ t, 0 <= lines t) (multilines c)
  else is_Some (multiline c).

(** The parser with its ticker stopped, as [Stop] leaves it before the
    final flush. *)
Definition halted (c : multiLineParser) : multiLineParser :=
  match flusher c with
  | Some f => set_flusher c (Some (StopTicker f))
  | None => c
  end.


(** Every expression of the parser respects the engine's contract. *)
Definition parser_ok (c : multiLineParser) : Prop :=
  regexp_ok (expressionRegex c) ∧
  (∀ e, firstLineRegex c = Some e → regexp_ok e) ∧
  (∀ e, nextLineRegex c = Some e → regexp_ok e).

(** Two parser states with the same configuration: they differ at most in
    the registry. *)
Definition same_config (c c' : multiLineParser) : Prop :=
  modeHandler c' = modeHandler c ∧ expressionRegex c' = expressionRegex c ∧
  firstLineRegex c' = firstLineRegex c ∧ nextLineRegex c' = nextLineRegex c ∧
  maxWait c' = maxWait c ∧ separator c' = separator c ∧
  multitrack c' = multitrack c ∧ flusher c' = flusher c ∧ next c' = next c ∧
  logger c' = logger c.

(** The errors of the handler [h] when it is called with [ds] in turn, after
    the calls [w]. *)
Fixpoint answers (h : Handler) (w : list Delivery) (ds : list Delivery) : list string :=
  match ds with
  | [] => []
  | d :: ds' => Add [] (h w d) ++ answers h (w ++ [d]) ds'
  end.

(** ** Vocabulary of the construction property *)

Section Rejection.

Variable Compile : string → option Regexp.
Variable ParseDuration : string → option Z.

(** The idle duration the configuration asks for: five seconds when the
    text is empty, no value when the text does not parse. *)
Definition effective_idle (config : Config) : option Z :=
  if String.eqb (IdleDuration config) "" then Some (5 * Second)
  else ParseDuration (IdleDuration config).

(** The configurations that the specification lists as refused. *)
Definition rejected (config : option Config) : Prop :=
  match config with
  | None => True
  | Some cfg =>
      Expression cfg = "" ∨
      Compile (Expression cfg) = None ∨
      (FirstLineExpression cfg ≠ "" ∧ Compile (FirstLineExpression cfg) = None) ∨
      (NextLineExpression cfg ≠ "" ∧ Compile (NextLineExpression cfg) = None) ∨
      Mode cfg ∉ ["continue"; "newline"; "group"; "unordered_group"] ∨
      effective_idle cfg = None ∨
      ((Mode cfg = "group" ∨ Mode cfg = "unordered_group") ∧
       ∃ d, effective_idle cfg = Some d ∧ d <= 0)
  end.

End Rejection.

(** ** Operations on a parser *)

(** The operations a caller or the ticker goroutine performs on a parser:
    [Handle] of a line, [Flush], one tick of the flusher (with its log call
    when the flush fails), [Stop]. *)
Inductive Op : Type :=
  | OpHandle (l : Line)
  | OpFlush (now : Z)
  | OpTick (now : Z)
  | OpStop (now : Z).

(** One operation; the error it returns is left to the caller. *)
Definition step (c : multiLineParser) (w : World) (op : Op)
    : result (multiLineParser * World) :=
  match op with
  | OpHandle l =>
      '(c', w', _) ← Handle c w (l_labels l) (l_time l) (l_text l) (l_now l); Ret (c', w')
  | OpFlush now => '(c', w', _) ← Flush now c w; Ret (c', w')
  | OpTick now => tick now c w
  | OpStop now => '(c', w', _) ← Stop now c w; Ret (c', w')
  end.

Fixpoint run (c : multiLineParser) (w : World) (ops : list Op)
    : result (multiLineParser * World) :=
  match ops with
  | [] => Ret (c, w)
  | op :: ops' => '(c', w') ← step c w op; run c' w' ops'
  end.

(** ** Vocabulary of the further properties *)

(** The registry fits the mode handler: the unordered group handler runs on
    a multi-track parser, the other handlers on a parser with its slot. *)
Definition wired (c : multiLineParser) : Prop :=
  match modeHandler c with
  | UnorderedGroupMode => multitrack c = true
  | _ => multitrack c = false ∧ is_Some (multiline c)
  end.

(** The lines without the empty ones that come first. *)
Fixpoint skip_empty (ls : list string) : list string :=
  match ls with
  | [] => []
  | l :: ls' => if String.eqb l "" then skip_empty ls' else ls
  end.

(** The number of lines held by the records of a list. *)
Definition total_lines (ts : list multilineEntry) : Z :=
  foldr Z.add 0 (lines <$> ts).

(** A record without lines has no text, and its counter is not negative. *)
Definition clean (t : multilineEntry) : Prop :=
  0 <= lines t ∧ (lines t = 0 → entry t = "").

(** The three facts the unordered group mode keeps about a parser. *)
Definition unordered (c : multiLineParser) : Prop :=
  modeHandler c = UnorderedGroupMode ∧ multitrack c = true ∧ parser_ok c.

(** The keys seen so far, in the order in which each was seen first. *)
Definition add_key (ks : list string) (k : string) : list string :=
  if decide (k ∈ ks) then ks else ks ++ [k].

(** ** The simplest stage ([simplest/simplest.go])

    The values of the extracted map are Go interface values: [V], with
    [of_string] for a string stored in an interface and [Sprint] for
    [fmt.Sprintf("%v", v)].  The logger of the stage is left out. *)

Module Simplest.

Record simplestStage : Type := {
  source : string
}.

Definition Name (m : simplestStage) : string := "simplest".

Section Stage.

Variable V : Type.
Variable of_string : string → V.
Variable Sprint : V → string.

(** [Process] only writes to the extracted map; the map after the call is
    returned. *)
Definition Process (m : simplestStage) (src : gmap string V) : gmap string V :=
  match src !! source m with
  | Some v => <[source m := of_string ("simplest->" +:+ Sprint v)]> src
  | None => src
  end.

End Stage.

End Simplest.

(** A handler made at most one downstream call and returned its answer:
    either the calls are unchanged and the error is nil, or one call was
    added and the error is what the downstream handler answered to it. *)
Definition one_call (c : multiLineParser) (w w' : list Delivery) (e : option string) : Prop :=
  (w' = w ∧ e = None) ∨ ∃ d, w' = w ++ [d] ∧ e = next c w d.

(** * Properties *)

(** ** The test vectors of the repository *)

Example test_disjoint_t1 :
  disjoint (Samples.tabled [("F:1 F:2", [[0; 4; 2; 4]; [4; 7; 6; 7]])]) "F:1 F:2"
  = Ret ("1 2", "F:F:").
Proof. reflexivity. Qed.

Example test_disjoint_t2 :
  disjoint (Samples.tabled [("E:1 F:1 G:1 H:1", [[4; 15; 4; 8; 12; 15]])]) "E:1 F:1 G:1 H:1"
  = Ret ("F:1 H:1", "E:1 G:1 ").
Proof. reflexivity. Qed.

Example test_disjoint_t4 :
  disjoint
    (Samples.tabled [("E:1 F:1 G:1 H:1 I:1 E:2 F:2 G:2 H:2 I:2",
                      [[0; 0; -1; -1; -1; -1; -1; -1]; [4; 36; 4; 36; 4; 8; 32; 36]])])
    "E:1 F:1 G:1 H:1 I:1 E:2 F:2 G:2 H:2 I:2"
  = Ret ("F:1 G:1 H:1 I:1 E:2 F:2 G:2 H:2 ", "E:1 I:2").
Proof. reflexivity. Qed.

Example test_disjoint_continue :
  disjoint Samples.continued "this line continue\" = Ret ("this line continue", "\").
Proof. reflexivity. Qed.

Example test_continue_mode :
  Samples.delivered (Samples.parser ContinueMode Samples.continued " " 1000 nop)
    ["event\"; "one"; "two"; "event\"; "three"]
  = Ret ["event one"; "two"; "event three"].
Proof. vm_compute. reflexivity. Qed.

Example test_newline_mode :
  Samples.delivered (Samples.parser NewLineMode Samples.not_indented "" 1000 nop)
    ["line 1"; " subline 1.1"; " subline 1.2"; "line 2"; " subline 2.1"]
  = Ret ["line 1 subline 1.1 subline 1.2"; "line 2 subline 2.1"].
Proof. vm_compute. reflexivity. Qed.

Example test_group_mode :
  Samples.delivered (Samples.parser GroupMode Samples.first_word "" 1000 nop)
    ["G:1 event"; "G:1 one"; "G:2 event"; "G:2 two"]
  = Ret ["G:1 event one"; "G:2 event two"].
Proof. vm_compute. reflexivity. Qed.

Example test_timeout :
  (r ← NewMultiLineParser Samples.Compile Samples.ParseDuration (Some Samples.util_Logger)
         (Some (Samples.config "continue" Samples.continued_source "" "10ms")) (Some nop);
   match r with
   | inl _ => Ret []
   | inr c =>
       '(c1, w1, _) ← HandleAll c [] (Samples.line 0 <$> ["event \"; "one\"]);
       '(_, w2) ← tick_loop 20 0 5000000 c1 w1;
       Ret (d_entry <$> (w2 : list Delivery))
   end) = Ret ["event one"].
Proof. vm_compute. reflexivity. Qed.

Example test_unordered_group_mode :
  Samples.delivered (Samples.parser UnorderedGroupMode Samples.first_word "" 1000 nop)
    ["G:1 event"; "G:2 event"; "G:1 one"; "G:2 two"]
  = Ret ["G:1 event one"; "G:2 event two"].
Proof. vm_compute. reflexivity. Qed.

(** ** Strings as character lists *)

Lemma chars_append (a b : string) : chars (a +:+ b) = chars a ++ chars b.
Proof.
  induction a as [|x a IH]; [done|].
  change (x :: chars (a +:+ b) = x :: (chars a ++ chars b)). by rewrite IH.
Qed.

Lemma chars_length (s : string) : length (chars s) = String.length s.
Proof. induction s as [|x s IH]; simpl; [done | by rewrite IH]. Qed.

Lemma chars_inj (a b : string) : chars a = chars b → a = b.
Proof.
  intros H. rewrite <- (String.string_of_list_ascii_of_string a),
    <- (String.string_of_list_ascii_of_string b).
  unfold chars in H. by rewrite H.
Qed.

Lemma chars_substring (n m : nat) (s : string) :
  chars (String.substring n m s) = take m (drop n (chars s)).
Proof.
  revert n m. induction s as [|x s IH]; intros n m.
  - destruct n, m; done.
  - destruct n as [|n].
    + destruct m as [|m]; simpl; [done|]. f_equal. apply (IH 0%nat m).
    + simpl. apply IH.
Qed.

Lemma append_empty_r (s : string) : s +:+ "" = s.
Proof.
  induction s as [|a s IH]; [done|].
  change (String a (s +:+ "") = String a s). by rewrite IH.
Qed.

Lemma append_assoc (a b c : string) : (a +:+ b) +:+ c = a +:+ b +:+ c.
Proof.
  induction a as [|x a IH]; [done|].
  change (String x ((a +:+ b) +:+ c) = String x (a +:+ b +:+ c)). by rewrite IH.
Qed.

Lemma Join_cons (x : string) (l : list string) : Join (x :: l) = x +:+ Join l.
Proof.
  destruct l as [|y l].
  - change (Join [x]) with x. change (Join []) with "". by rewrite append_empty_r.
  - reflexivity.
Qed.

Lemma Join_snoc (l : list string) (x : string) : Join (l ++ [x]) = Join l +:+ x.
Proof.
  induction l as [|y l IH].
  - simpl. done.
  - rewrite <- app_comm_cons, !Join_cons, IH. by rewrite append_assoc.
Qed.

(** ** Masks *)

Lemma select_nil {A} (mask : list bool) : select mask (@nil A) = [].
Proof. by destruct mask. Qed.

Lemma select_app {A} (m1 m2 : list bool) (l : list A) :
  select (m1 ++ m2) l = select m1 l ++ select m2 (drop (length m1) l).
Proof.
  revert l. induction m1 as [|b m1 IH]; intros l; simpl.
  - by rewrite drop_0.
  - destruct l as [|a l]; simpl.
    + by rewrite select_nil.
    + rewrite IH. by destruct b.
Qed.

Lemma select_all {A} (n : nat) (l : list A) : select (replicate n true) l = take n l.
Proof.
  revert l. induction n as [|n IH]; intros [|a l]; simpl; try done.
  by rewrite IH.
Qed.

Lemma select_none {A} (n : nat) (l : list A) : select (replicate n false) l = [].
Proof. revert l. induction n as [|n IH]; intros [|a l]; simpl; auto. Qed.

Lemma interleave_select {A} (mask : list bool) (l : list A) :
  length mask = length l →
  interleave mask (select mask l) (select (negb <$> mask) l) = l.
Proof.
  revert l. induction mask as [|b mask IH]; intros [|a l] Hlen; simpl in *; try done.
  destruct b; simpl; f_equal; apply IH; lia.
Qed.

(** ** The loops of [disjoint] *)

Lemma slice_ret (s : string) (lo hi : Z) :
  0 <= lo → lo <= hi → hi <= len s →
  slice s lo hi = Ret (String.substring (Z.to_nat lo) (Z.to_nat (hi - lo)) s).
Proof.
  intros H1 H2 H3. unfold slice.
  destruct (Z.leb_spec 0 lo); [|lia].
  destruct (Z.leb_spec lo hi); [|lia].
  destruct (Z.leb_spec hi (len s)); [|lia]. done.
Qed.

Lemma splits_step (s : string) (k : cursor) (beg end_ : Z) :
  splits s k → last k <= beg → beg < end_ → end_ <= len s →
  ∃ i x, slice s (last k) beg = Ret i ∧ slice s beg end_ = Ret x ∧
    splits s {| sel := sel k ++ [x]; inv := inv k ++ [i]; last := end_ |}.
Proof.
  intros [Hl (mask & Hlen & Hsel & Hinv)] Hb He Hn.
  eexists _, _. split; [apply slice_ret; lia|]. split; [apply slice_ret; lia|].
  split; simpl; [lia|].
  exists (mask ++ replicate (Z.to_nat (beg - last k)) false
               ++ replicate (Z.to_nat (end_ - beg)) true).
  split; [|split].
  - rewrite !length_app, !length_replicate. lia.
  - rewrite Join_snoc, chars_append, chars_substring, <- Hsel.
    rewrite !select_app, select_none, select_all, length_replicate, Hlen.
    simpl. rewrite drop_drop. do 3 f_equal. lia.
  - rewrite Join_snoc, chars_append, chars_substring, <- Hinv.
    rewrite !fmap_app, !fmap_replicate. simpl negb.
    rewrite !select_app, select_none, select_all, length_fmap, Hlen.
    by rewrite app_nil_r.
Qed.

Lemma groups_splits (s : string) (m : list Z) (k : cursor) :
  Nat.Even (length m) → Forall (λ x, x <= len s) m → splits s k →
  ∃ k', groups s m k = Ret k' ∧ splits s k'.
Proof.
  remember (length m) as n eqn:Hn. revert m k Hn.
  induction n as [n IH] using lt_wf_ind. intros m k Hn Hev Hle Hk.
  destruct m as [|beg [|end_ m]].
  - exists k. by split.
  - exfalso. simpl in Hn. subst n. destruct Hev as [j Hj]. lia.
  - assert (Hev' : Nat.Even (length m)).
    { subst n. destruct Hev as [j Hj]. simpl in Hj. exists (j - 1)%nat. lia. }
    assert (Hle' : Forall (λ x, x <= len s) m).
    { by do 2 apply Forall_cons in Hle as [_ Hle]. }
    assert (Hlt : (length m < n)%nat) by (subst n; simpl; lia).
    simpl. destruct (Z.ltb_spec beg 0) as [Hneg|Hpos].
    + by apply (IH _ Hlt).
    + destruct ((end_ >? beg) && (beg >=? last k)) eqn:Hguard.
      * apply andb_true_iff in Hguard as [H1 H2].
        assert (end_ <= len s).
        { apply Forall_cons in Hle as [_ Hle]. by apply Forall_cons in Hle as [? _]. }
        destruct (splits_step s k beg end_) as (i & x & -> & -> & Hk'); [done|lia..|].
        simpl. by apply (IH _ Hlt).
      * by apply (IH _ Hlt).
Qed.

Lemma each_match_splits (s : string) (ms : list (list Z)) (k : cursor) :
  matches_ok s ms → splits s k →
  ∃ k', each_match s ms k = Ret k' ∧ splits s k'.
Proof.
  intros Hms. revert k. induction Hms as [|m ms [Hev Hle] _ IH]; intros k Hk.
  - exists k. by split.
  - simpl. destruct (groups_splits s (drop 2 m) k) as (k' & -> & Hk'); [| |done|].
    + rewrite length_drop. destruct Hev as [j Hj]. exists (j - 1)%nat. lia.
    + by apply Forall_drop.
    + simpl. by apply IH.
Qed.

Lemma splits_start (s : string) : splits s {| sel := []; inv := []; last := 0 |}.
Proof.
  split; simpl; [unfold len; lia|]. exists []. by repeat split.
Qed.

(** C4. For every compiled expression and every line, [disjoint] returns a
    pair (selected, unselected) that splits the line position by position:
    there is a marking of the positions of the line such that the selected
    text is the characters at the marked positions, the unselected text the
    characters at the other positions, both in the order of the line, and
    putting the two back together along the marking gives the line again.
    This holds for any shape of the capturing groups; the only assumption is
    the engine's contract on the offsets it reports. *)
Theorem disjoint_partitions (e : Regexp) (s : string) :
  matches_ok s (FindAllSubmatchIndex e s) →
  ∃ (selected unselected : string) (mask : list bool),
    disjoint e s = Ret (selected, unselected) ∧
    length mask = length (chars s) ∧
    select mask (chars s) = chars selected ∧
    select (negb <$> mask) (chars s) = chars unselected ∧
    interleave mask (chars selected) (chars unselected) = chars s.
Proof.
  intros Hms. unfold disjoint.
  destruct (each_match_splits s _ _ Hms (splits_start s))
    as (k & -> & [Hl (mask & Hlen & Hsel & Hinv)]).
  simpl.
  set (rest := Z.to_nat (len s - last k)).
  assert (Hfull : length (mask ++ replicate rest false) = length (chars s)).
  { rewrite length_app, length_replicate, chars_length. unfold rest, len in *. lia. }
  assert (Hsel' : select (mask ++ replicate rest false) (chars s) = chars (Join (sel k))).
  { by rewrite select_app, select_none, app_nil_r. }
  assert (Htail : select (negb <$> mask ++ replicate rest false) (chars s)
                  = chars (Join (inv k)) ++ drop (Z.to_nat (last k)) (chars s)).
  { rewrite fmap_app, fmap_replicate, select_app, select_all, length_fmap, Hlen, Hinv.
    f_equal. apply take_ge. rewrite length_drop, chars_length. unfold rest, len. lia. }
  destruct (Z.ltb_spec (last k) (len s)) as [Hlt|Hge].
  - rewrite slice_ret by lia. simpl.
    exists (Join (sel k)), (Join (inv k ++ [String.substring (Z.to_nat (last k))
                                              (Z.to_nat (len s - last k)) s])),
      (mask ++ replicate rest false).
    assert (Hinv' : select (negb <$> mask ++ replicate rest false) (chars s)
                    = chars (Join (inv k ++ [String.substring (Z.to_nat (last k))
                                               (Z.to_nat (len s - last k)) s]))).
    { rewrite Htail, Join_snoc, chars_append, chars_substring. f_equal.
      symmetry. apply take_ge. rewrite length_drop, chars_length. unfold len. lia. }
    repeat split; try done.
    rewrite <- Hsel', <- Hinv'. by apply interleave_select.
  - simpl. exists (Join (sel k)), (Join (inv k)), (mask ++ replicate rest false).
    assert (Hinv' : select (negb <$> mask ++ replicate rest false) (chars s)
                    = chars (Join (inv k))).
    { rewrite Htail, drop_ge, app_nil_r; [done|]. rewrite chars_length. unfold len in *. lia. }
    repeat split; try done.
    rewrite <- Hsel', <- Hinv'. by apply interleave_select.
Qed.

Lemma disjoint_partitions_witness :
  let e := Samples.tabled [("E:1 F:1 G:1 H:1", [[4; 15; 4; 8; 12; 15]])] in
  let s := "E:1 F:1 G:1 H:1" in
  ∃ (selected unselected : string) (mask : list bool),
    disjoint e s = Ret (selected, unselected) ∧
    length mask = length (chars s) ∧
    select mask (chars s) = chars selected ∧
    select (negb <$> mask) (chars s) = chars unselected ∧
    interleave mask (chars selected) (chars unselected) = chars s.
Proof.
  intros e s. apply (disjoint_partitions e s).
  repeat constructor; try (by exists 3%nat); vm_compute; discriminate.
Defined.

Lemma disjoint_returns (e : Regexp) (s : string) :
  matches_ok s (FindAllSubmatchIndex e s) → returns (disjoint e s).
Proof.
  intros Hms. unfold returns, disjoint.
  destruct (each_match_splits s _ _ Hms (splits_start s)) as (k & -> & [Hl _]).
  simpl. destruct (Z.ltb_spec (last k) (len s)).
  - rewrite slice_ret by lia. simpl. eauto.
  - simpl. eauto.
Qed.

Lemma selection_returns (e : option Regexp) (s : string) :
  (∀ r, e = Some r → regexp_ok r) → returns (selection e s).
Proof.
  intros He. destruct e as [r|]; simpl.
  - destruct (disjoint_returns r s (He r eq_refl s)) as [[x y] ->]. simpl. by eexists.
  - by eexists.
Qed.

(** ** The record accumulator *)

Lemma Merge_self (l : LabelSet) : Merge l l = l.
Proof. unfold Merge. apply (idemp_L (∪)). Qed.

(** Whatever the record held, after [append] its labels are the labels of
    the appended line. *)
Lemma append_labels (d : multilineEntry) (l : LabelSet) (e sep : string) :
  labels (append d l e sep) = l.
Proof. simpl. apply Merge_self. Qed.

Lemma append_timestamp (d : multilineEntry) (l : LabelSet) (e sep : string) :
  timestamp (append d l e sep) = timestamp d ∧ enrollTime (append d l e sep) = enrollTime d.
Proof. by split. Qed.

Lemma reset_fields (d : multilineEntry) :
  labels (reset d) = ∅ ∧ entry (reset d) = "" ∧ lines (reset d) = 0 ∧
  key (reset d) = key d ∧ enrollTime (reset d) = enrollTime d ∧
  timestamp (reset d) = timestamp d.
Proof. by repeat split. Qed.

(** C1. The claim asks that an append keeps the labels accumulated from the
    earlier lines.  The source evaluates [labels.Merge(labels)] on the
    incoming set alone: a record that holds the label [app] of its first
    line and is appended a line labelled [level] holds [level] only. *)
Theorem append_discards_accumulated_labels :
  let d := init (newMultiLineEntry "") {["app" := "shop"]} 1 "first" 0 in
  let d' := append d {["level" := "info"]} "second" " " in
  labels d !! "app" = Some "shop" ∧
  labels d' !! "app" = None ∧
  labels d' = {["level" := "info"]} ∧
  ¬ (labels d ⊆ labels d').
Proof.
  intros d d'. assert (Hd' : labels d' = {["level" := "info"]}) by apply append_labels.
  split; [|split; [|split]].
  - apply lookup_singleton_eq.
  - rewrite Hd'. by apply lookup_singleton_ne.
  - exact Hd'.
  - intros Hsub. rewrite Hd' in Hsub.
    assert (H : ({["level" := "info"]} : LabelSet) !! "app" = Some "shop").
    { eapply lookup_weaken; [apply lookup_singleton_eq | exact Hsub]. }
    by rewrite lookup_singleton_ne in H.
Qed.

(** ** The flush path *)

Lemma Add_app (es : list string) (e : option string) : Add es e = es ++ Add [] e.
Proof. destruct e; simpl; [done | by rewrite app_nil_r]. Qed.


Lemma sweep_spec (force : bool) (now : Z) (c : multiLineParser) (ts nextGen : list multilineEntry)
    (w : list Delivery) (err : list string) :
  let out := List.filter (λ t, negb (lines t =? 0) && expired force now c t) ts in
  sweep force now c ts nextGen w err =
  (nextGen ++ List.filter (λ t, negb (lines t =? 0) && negb (expired force now c t)) ts,
   w ++ (delivery_of <$> out),
   err ++ answers (next c) w (delivery_of <$> out)).
Proof.
  revert nextGen w err. induction ts as [|t ts IH]; intros nextGen w err; simpl.
  - by rewrite !app_nil_r.
  - destruct (lines t =? 0); simpl.
    + apply IH.
    + destruct (expired force now c t); simpl.
      * rewrite IH. simpl. rewrite Add_app, <- !app_assoc. done.
      * rewrite IH. simpl. by rewrite <- app_assoc.
Qed.

Lemma due_expired (force : bool) (now : Z) (c : multiLineParser) (t : multilineEntry) :
  due force now c t = (lines t >? 0) && expired force now c t.
Proof.
  unfold due, expired. rewrite !Z.gtb_ltb. done.
Qed.

Lemma due_nonneg (force : bool) (now : Z) (c : multiLineParser) (t : multilineEntry) :
  0 <= lines t →
  negb (lines t =? 0) && expired force now c t = due force now c t ∧
  negb (lines t =? 0) && negb (expired force now c t)
  = (0 <? lines t) && negb (due force now c t).
Proof.
  intros H. rewrite due_expired, Z.gtb_ltb.
  destruct (Z.eqb_spec (lines t) 0), (Z.ltb_spec 0 (lines t)); try lia; simpl; try done.
Qed.

(** What [flush] does, in terms of the records that are due. *)
Lemma flush_spec (force : bool) (now : Z) (c : multiLineParser) (w : list Delivery) :
  registry_ok c →
  let ds := delivery_of <$> List.filter (due force now c) (tracked c) in
  ∃ c', flush force now c w = Ret (c', w ++ ds, Err (answers (next c) w ds)) ∧
    c' = (if multitrack c
          then set_multilines c
                 (List.filter (λ t, (0 <? lines t) && negb (due force now c t)) (multilines c))
          else match multiline c with
               | Some t => if due force now c t then set_multiline c (reset t) else c
               | None => c
               end).
Proof.
  cbv zeta. unfold registry_ok, tracked, flush. destruct (multitrack c) eqn:Hmt; intros Hok.
  - rewrite sweep_spec. simpl.
    assert (Hout : List.filter (λ t, negb (lines t =? 0) && expired force now c t) (multilines c)
                   = List.filter (due force now c) (multilines c)).
    { apply List.filter_ext_in. intros t Ht%list_elem_of_In.
      rewrite Forall_forall in Hok. by apply due_nonneg, Hok. }
    assert (Hkeep : List.filter (λ t, negb (lines t =? 0) && negb (expired force now c t))
                      (multilines c)
                    = List.filter (λ t, (0 <? lines t) && negb (due force now c t))
                        (multilines c)).
    { apply List.filter_ext_in. intros t Ht%list_elem_of_In.
      rewrite Forall_forall in Hok. by apply due_nonneg, Hok. }
    rewrite Hout, Hkeep. eexists. split; reflexivity.
  - destruct Hok as [t Ht]. rewrite Ht in *. simpl.
    rewrite <- due_expired.
    destruct (due force now c t); simpl.
    + eexists. split; [|reflexivity]. by rewrite app_nil_r.
    + eexists. split; [|reflexivity]. by rewrite app_nil_r.
Qed.

Lemma due_true_iff (now : Z) (c : multiLineParser) (t : multilineEntry) :
  due true now c t = true ↔ 0 < lines t.
Proof. unfold due. simpl. rewrite andb_true_r. apply Z.ltb_lt. Qed.

Lemma due_false_iff (now : Z) (c : multiLineParser) (t : multilineEntry) :
  due false now c t = true ↔ 0 < lines t ∧ now - enrollTime t > maxWait c.
Proof. unfold due. simpl. rewrite andb_true_iff, !Z.ltb_lt. lia. Qed.

(** C5. A flush hands over exactly the tracked records that are due, in
    their order: with [force = true] those with a positive line count,
    whatever their age; with [force = false] those with a positive line
    count whose age [now - enrollTime] exceeds the idle duration.  A record
    that was handed over is reset (single slot: no lines, no text, no
    labels left, the key kept) or removed from the list (multi-track, which
    keeps exactly the records with lines that were not due); a record that
    was not due stays as it is; a record without lines is never handed
    over. *)
Theorem flush_delivers_due_records (force : bool) (now : Z) (c : multiLineParser)
    (w : list Delivery) :
  registry_ok c →
  ∃ c' e,
    flush force now c w
    = Ret (c', w ++ (delivery_of <$> List.filter (due force now c) (tracked c)), e) ∧
    tracked c' = (if multitrack c
                  then List.filter (λ t, (0 <? lines t) && negb (due force now c t)) (tracked c)
                  else flushed force now c <$> tracked c) ∧
    (multitrack c = false →
     ∀ t, multiline c = Some t →
       if due force now c t
       then ∃ t', multiline c' = Some t' ∧ lines t' = 0 ∧ entry t' = "" ∧
                  labels t' = ∅ ∧ key t' = key t
       else multiline c' = Some t) ∧
    (multitrack c = true →
     ∀ t, t ∈ multilines c' ↔
          t ∈ multilines c ∧ 0 < lines t ∧ due force now c t = false) ∧
    (∀ t, due true now c t = true ↔ 0 < lines t) ∧
    (∀ t, due false now c t = true ↔ 0 < lines t ∧ now - enrollTime t > maxWait c).
Proof.
  intros Hok. destruct (flush_spec force now c w Hok) as (c' & Hflush & Hc').
  exists c', (Err (answers (next c) w
                     (delivery_of <$> List.filter (due force now c) (tracked c)))).
  split; [exact Hflush|].
  split; [|split; [|split; [|split; [apply due_true_iff | apply due_false_iff]]]].
  - subst c'. unfold tracked, registry_ok in *. destruct (multitrack c) eqn:Hmt.
    + simpl. by rewrite Hmt.
    + destruct Hok as [t Ht]. rewrite Ht. unfold flushed. simpl.
      destruct (due force now c t); simpl; rewrite Hmt; simpl; [done|]. by rewrite Ht.
  - intros Hmt t Ht. rewrite Hmt, Ht in Hc'.
    destruct (due force now c t); subst c'; simpl.
    + exists (reset t). by repeat split.
    + exact Ht.
  - intros Hmt t. rewrite Hmt in Hc'. subst c'. simpl.
    rewrite !list_elem_of_In, List.filter_In, andb_true_iff, negb_true_iff, Z.ltb_lt.
    tauto.
Qed.

Lemma flush_delivers_due_records_witness :
  let c := Samples.holding_one GroupMode (Samples.record "G:1" "G:1 old" 2 0 1) 10 nop in
  registry_ok c ∧
  ∃ c' e,
    flush false 100 c []
    = Ret (c', [] ++ (delivery_of <$> List.filter (due false 100 c) (tracked c)), e) ∧
    tracked c' = (if multitrack c
                  then List.filter (λ t, (0 <? lines t) && negb (due false 100 c t)) (tracked c)
                  else flushed false 100 c <$> tracked c) ∧
    (multitrack c = false →
     ∀ t, multiline c = Some t →
       if due false 100 c t
       then ∃ t', multiline c' = Some t' ∧ lines t' = 0 ∧ entry t' = "" ∧
                  labels t' = ∅ ∧ key t' = key t
       else multiline c' = Some t) ∧
    (multitrack c = true →
     ∀ t, t ∈ multilines c' ↔
          t ∈ multilines c ∧ 0 < lines t ∧ due false 100 c t = false) ∧
    (∀ t, due true 100 c t = true ↔ 0 < lines t) ∧
    (∀ t, due false 100 c t = true ↔ 0 < lines t ∧ 100 - enrollTime t > maxWait c).
Proof.
  intros c.
  assert (Hok : registry_ok c) by (by eexists).
  split; [exact Hok | apply (flush_delivers_due_records false 100 c [] Hok)].
Defined.

Example flush_resets_the_slot :
  let c := Samples.holding_one GroupMode
             {| enrollTime := 0; labels := {["app" := "shop"]}; timestamp := 1;
                key := "G:1"; entry := "G:1 old"; lines := 2 |} 10 nop in
  ('(c', w', _) ← flush false 100 c []; Ret (multiline c', d_entry <$> (w' : list Delivery)))
  = Ret (Some {| enrollTime := 0; labels := ∅; timestamp := 1; key := "G:1"; entry := "";
                 lines := 0 |}, ["G:1 old"]).
Proof. reflexivity. Qed.


Example flush_sweeps_old_records :
  let c := Samples.holding [Samples.record "a" "old" 2 0 1; Samples.record "b" "" 0 0 2;
                            Samples.record "c" "young" 1 95 3] 10 Samples.failing in
  flush false 100 c []
  = Ret (Samples.holding [Samples.record "c" "young" 1 95 3] 10 Samples.failing,
         [delivery_of (Samples.record "a" "old" 2 0 1)], Some ["rejected: old"]).
Proof. reflexivity. Qed.





Example flush_one_failing :
  let c := Samples.holding [Samples.record "a" "one" 2 0 1; Samples.record "b" "two" 1 0 2;
                            Samples.record "c" "three" 1 0 3] 10 Samples.refusing_two in
  flush true 5 c []
  = Ret (Samples.holding [] 10 Samples.refusing_two,
         [delivery_of (Samples.record "a" "one" 2 0 1);
          delivery_of (Samples.record "b" "two" 1 0 2);
          delivery_of (Samples.record "c" "three" 1 0 3)],
         Some ["rejected: two"]).
Proof. reflexivity. Qed.

Example flush_all_failing :
  let c := Samples.holding [Samples.record "a" "one" 2 0 1; Samples.record "b" "two" 1 0 2]
             10 Samples.failing in
  flush true 5 c []
  = Ret (Samples.holding [] 10 Samples.failing,
         [delivery_of (Samples.record "a" "one" 2 0 1);
          delivery_of (Samples.record "b" "two" 1 0 2)],
         Some ["rejected: one"; "rejected: two"]).
Proof. reflexivity. Qed.

(** ** Stop *)

Lemma registry_ok_halted (c : multiLineParser) : registry_ok c → registry_ok (halted c).
Proof. unfold halted. by destruct (flusher c). Qed.

(** C10. [Stop] returns nil whatever the final flush returns: it stops the
    ticker when there is one (the ticker of the parser is then a stopped
    ticker with the same interval), runs the forced flush, keeps the state
    and the calls of that flush and drops its combined error. *)
Theorem Stop_returns_nil (now : Z) (c : multiLineParser) (w : list Delivery) :
  registry_ok c →
  ∃ c' w' e,
    flush true now (halted c) w = Ret (c', w', e) ∧
    Stop now c w = Ret (c', w', None) ∧
    flusher c' = StopTicker <$> flusher c ∧
    (∀ f, flusher c = Some f →
          ∃ f', flusher c' = Some f' ∧ stopped f' = true ∧ interval f' = interval f) ∧
    (flusher c = None → flusher c' = None).
Proof.
  intros Hok.
  destruct (flush_spec true now (halted c) w (registry_ok_halted c Hok)) as (c' & Hf & Hc').
  eexists c', _, _. split; [exact Hf|]. split.
  { unfold Stop. fold (halted c). rewrite Hf. reflexivity. }
  assert (Hfl : flusher c' = flusher (halted c)).
  { subst c'. destruct (multitrack (halted c)); [done|].
    destruct (multiline (halted c)) as [t|]; [|done]. by destruct (due _ _ _ _). }
  rewrite Hfl. unfold halted. destruct (flusher c) as [f|] eqn:Hfc; simpl.
  - split; [done|]. split; [|done]. intros f0 [= <-]. by exists (StopTicker f).
  - rewrite Hfc. by repeat split.
Qed.

Lemma Stop_returns_nil_witness :
  let c := set_flusher
             (Samples.holding_one ContinueMode (Samples.record "" "pending" 1 0 1) 10
                Samples.failing)
             (Some {| interval := 5; stopped := false |}) in
  registry_ok c ∧
  ∃ c' w' e,
    flush true 3 (halted c) [] = Ret (c', w', e) ∧
    Stop 3 c [] = Ret (c', w', None) ∧
    flusher c' = StopTicker <$> flusher c ∧
    (∀ f, flusher c = Some f →
          ∃ f', flusher c' = Some f' ∧ stopped f' = true ∧ interval f' = interval f) ∧
    (flusher c = None → flusher c' = None).
Proof.
  intros c.
  assert (Hok : registry_ok c) by (by eexists).
  split; [exact Hok | apply (Stop_returns_nil 3 c [] Hok)].
Defined.

Example Stop_stops_the_ticker :
  let c := set_flusher
             (Samples.holding_one ContinueMode (Samples.record "" "pending" 1 0 1) 10
                Samples.failing)
             (Some {| interval := 5; stopped := false |}) in
  ('(c', _, e) ← Stop 3 c []; Ret (flusher c', e))
  = Ret (Some {| interval := 5; stopped := true |}, None).
Proof. reflexivity. Qed.

Example Stop_drops_the_error :
  let c := Samples.holding_one ContinueMode (Samples.record "" "pending" 1 0 1) 10
             Samples.failing in
  flush true 3 c [] = Ret (Samples.holding_one ContinueMode (Samples.record "" "" 0 0 1) 10
                             Samples.failing,
                           [delivery_of (Samples.record "" "pending" 1 0 1)],
                           Some ["rejected: pending"]) ∧
  Stop 3 c [] = Ret (Samples.holding_one ContinueMode (Samples.record "" "" 0 0 1) 10
                       Samples.failing,
                     [delivery_of (Samples.record "" "pending" 1 0 1)], None).
Proof. split; reflexivity. Qed.

(** ** The unordered group mode *)

Lemma same_config_refl (c : multiLineParser) : same_config c c.
Proof. by repeat split. Qed.

Lemma same_config_parser_ok (c c' : multiLineParser) :
  same_config c c' → parser_ok c → parser_ok c'.
Proof.
  intros (_ & He & Hf & Hn & _) (H1 & H2 & H3). unfold parser_ok.
  rewrite He, Hf, Hn. done.
Qed.

Lemma find_key_lt (k : string) (ts : list multilineEntry) (i : nat) :
  find_key k ts = Some i → (i < length ts)%nat.
Proof.
  revert i. induction ts as [|t ts IH]; intros i; simpl; [done|].
  destruct (String.eqb (key t) k).
  - intros [= <-]. lia.
  - destruct (find_key k ts) as [j|]; simpl; [|done].
    intros [= <-]. specialize (IH j eq_refl). lia.
Qed.

(** The pointer returned by [fetchLine] is never nil. *)
Lemma fetchLine_lookup (c : multiLineParser) (k : string) :
  ∃ ml, multilines (fetchLine c k).1 !! (fetchLine c k).2 = Some ml ∧
        same_config c (fetchLine c k).1.
Proof.
  unfold fetchLine. destruct (find_key k (multilines c)) as [i|] eqn:Hfind; simpl.
  - apply find_key_lt in Hfind. apply lookup_lt_is_Some in Hfind as [ml Hml].
    exists ml. split; [done | apply same_config_refl].
  - exists (newMultiLineEntry k). split; [|by repeat split].
    by rewrite lookup_app_r, Nat.sub_diag.
Qed.

Ltac same_config :=
  repeat match goal with
         | H : same_config _ _ |- _ => destruct H as (?&?&?&?&?&?&?&?&?&?)
         end;
  unfold same_config; simpl; repeat split; congruence.

Lemma handleUnorderedGroupMode_silent (c : multiLineParser) (w : list Delivery)
    (l : gmap string string) (t : Z) (e : string) (now : Z) :
  parser_ok c →
  ∃ c', handleUnorderedGroupMode c w l t e now = Ret (c', w, None) ∧ same_config c c'.
Proof.
  intros (Hexpr & Hfirst & Hnext). unfold handleUnorderedGroupMode.
  destruct (disjoint_returns (expressionRegex c) e (Hexpr e)) as [[k i] ->]. simpl.
  destruct (fetchLine_lookup c k) as (ml & Hml & Hsame).
  destruct (fetchLine c k) as [c1 p]. simpl in Hml, Hsame. rewrite Hml. simpl.
  assert (Hf : firstLineRegex c1 = firstLineRegex c) by (by destruct Hsame as (?&?&?&?)).
  assert (Hn : nextLineRegex c1 = nextLineRegex c) by (by destruct Hsame as (?&?&?&?&?)).
  destruct (lines ml >? 0).
  - destruct (nextLineRegex c1) as [r|] eqn:Hr.
    + destruct (selection_returns (Some r) e) as [x ->].
      { intros r' [= <-]. apply Hnext. by rewrite <- Hn. }
      simpl. eexists. split; [reflexivity | same_config].
    + simpl. eexists. split; [reflexivity | same_config].
  - destruct (selection_returns (firstLineRegex c1) e) as [x ->].
    { intros r' Hr'. apply Hfirst. by rewrite <- Hf. }
    simpl. eexists. split; [reflexivity | same_config].
Qed.

(** C8. In the unordered group mode no sequence of lines handed to [Handle]
    reaches the downstream handler: the calls made are unchanged and every
    [Handle] returns nil.  (Records of this mode leave through [flush].) *)
Theorem unordered_group_never_delivers (c : multiLineParser) (w : list Delivery)
    (ls : list Line) :
  modeHandler c = UnorderedGroupMode → parser_ok c →
  ∃ c', HandleAll c w ls = Ret (c', w, replicate (length ls) None) ∧ same_config c c'.
Proof.
  revert c. induction ls as [|l ls IH]; intros c Hmode Hok; simpl.
  - exists c. split; [done | apply same_config_refl].
  - unfold Handle. rewrite Hmode.
    destruct (handleUnorderedGroupMode_silent c w (default ∅ (l_labels l)) (l_time l)
                (l_text l) (l_now l) Hok) as (c1 & -> & Hsame).
    simpl. destruct (IH c1) as (c2 & -> & Hsame2).
    + destruct Hsame as [-> _]. done.
    + by apply (same_config_parser_ok c).
    + simpl. exists c2. split; [done | same_config].
Qed.

Lemma word_le_len (s : string) : 0 <= Samples.word s <= len s.
Proof.
  unfold len. induction s as [|a s IH]; simpl; [lia|].
  destruct (Samples.is_space a); lia.
Qed.

Lemma first_word_ok : regexp_ok Samples.first_word.
Proof.
  intros s. unfold matches_ok. simpl. pose proof (word_le_len s).
  destruct (0 <? Samples.word s); repeat constructor; try lia. by exists 2%nat.
Qed.

Lemma sample_parser_ok (h : ModeHandler) (sep : string) (wait : Z) (next' : Handler) :
  parser_ok (Samples.parser h Samples.first_word sep wait next').
Proof. split; [apply first_word_ok | by split]. Qed.

Lemma unordered_group_never_delivers_witness :
  let c := Samples.parser UnorderedGroupMode Samples.first_word "" 1000 Samples.failing in
  let ls := Samples.line 3 <$> ["G:1 event"; "G:2 event"; "G:1 one"; "G:2 two"] in
  modeHandler c = UnorderedGroupMode ∧ parser_ok c ∧
  ∃ c', HandleAll c [] ls = Ret (c', [], replicate (length ls) None) ∧ same_config c c'.
Proof.
  intros c ls. split; [reflexivity|]. split; [apply sample_parser_ok|].
  apply (unordered_group_never_delivers c [] ls eq_refl (sample_parser_ok _ _ _ _)).
Defined.

(** ** The group mode after a flush *)

(** C9. In group mode, the reset that follows a delivery by [flush] clears
    the labels, the text and the line count of the slot and keeps its key.
    The next line with that key therefore takes the append path on the empty
    slot: nothing is delivered, the slot holds one line, and its enrollment
    time and timestamp are still those of the record delivered before. *)
Theorem group_reset_keeps_key (c : multiLineParser) (w : list Delivery) (t : multilineEntry)
    (force : bool) (now : Z) (l : option (gmap string string)) (ts : Z) (line inv' : string)
    (now' : Z) :
  modeHandler c = GroupMode → multitrack c = false → multiline c = Some t →
  parser_ok c → due force now c t = true →
  disjoint (expressionRegex c) line = Ret (key t, inv') →
  labels (reset t) = ∅ ∧ entry (reset t) = "" ∧ lines (reset t) = 0 ∧
  key (reset t) = key t ∧
  ∃ c1 e1 c2 t2,
    flush force now c w = Ret (c1, w ++ [delivery_of t], e1) ∧
    multiline c1 = Some (reset t) ∧
    Handle c1 (w ++ [delivery_of t]) l ts line now' = Ret (c2, w ++ [delivery_of t], None) ∧
    multiline c2 = Some t2 ∧
    lines t2 = 1 ∧ key t2 = key t ∧
    enrollTime t2 = enrollTime t ∧ timestamp t2 = timestamp t.
Proof.
  intros Hmode Hmt Hml (Hexpr & Hfirst & Hnext) Hdue Hkey.
  do 4 (split; [done|]).
  assert (Hok : registry_ok c) by (unfold registry_ok; rewrite Hmt, Hml; by eexists).
  destruct (flush_spec force now c w Hok) as (c1 & Hflush & Hc1).
  unfold tracked in Hflush. rewrite Hmt, Hml in Hflush, Hc1. simpl in Hflush.
  rewrite Hdue in Hflush, Hc1. simpl in Hflush.
  assert (Hsel : returns (selection (nextLineRegex c) line)) by by apply selection_returns.
  destruct Hsel as [x Hx].
  exists c1, (Err (answers (next c) w [delivery_of t])),
    (set_multiline c1 (append (reset t) (default ∅ l)
                         (match nextLineRegex c with Some _ => x | None => inv' end)
                         (separator c))),
    (append (reset t) (default ∅ l)
       (match nextLineRegex c with Some _ => x | None => inv' end) (separator c)).
  split; [exact Hflush|]. subst c1. split; [done|]. split; [|by repeat split].
  unfold Handle. simpl. rewrite Hmode. unfold handleGroupMode. simpl. rewrite Hkey. simpl.
  rewrite String.eqb_refl.
  destruct (nextLineRegex c) as [r|]; [rewrite Hx|]; reflexivity.
Qed.

Lemma group_reset_keeps_key_witness :
  let t := Samples.record "G:1" "G:1 event" 1 10 7 in
  let c := Samples.holding_one GroupMode t 5 nop in
  modeHandler c = GroupMode ∧ multitrack c = false ∧ multiline c = Some t ∧
  parser_ok c ∧ due false 20 c t = true ∧
  disjoint (expressionRegex c) "G:1 again" = Ret (key t, " again") ∧
  labels (reset t) = ∅ ∧ entry (reset t) = "" ∧ lines (reset t) = 0 ∧
  key (reset t) = key t ∧
  ∃ c1 e1 c2 t2,
    flush false 20 c [] = Ret (c1, [] ++ [delivery_of t], e1) ∧
    multiline c1 = Some (reset t) ∧
    Handle c1 ([] ++ [delivery_of t]) (Some ∅) 99 "G:1 again" 30
    = Ret (c2, [] ++ [delivery_of t], None) ∧
    multiline c2 = Some t2 ∧
    lines t2 = 1 ∧ key t2 = key t ∧
    enrollTime t2 = enrollTime t ∧ timestamp t2 = timestamp t.
Proof.
  intros t c.
  assert (Hok : parser_ok c) by (split; [apply first_word_ok | by split]).
  do 3 (split; [reflexivity|]). split; [exact Hok|]. do 2 (split; [reflexivity|]).
  apply (group_reset_keeps_key c [] t false 20 (Some ∅) 99 "G:1 again" " again" 30
           eq_refl eq_refl eq_refl Hok eq_refl eq_refl).
Defined.

Example group_line_after_sweep :
  let t := Samples.record "G:1" "G:1 event" 1 10 7 in
  let c := Samples.holding_one GroupMode t 5 nop in
  ('(c1, w1, _) ← flush false 20 c [];
   '(c2, w2, _) ← Handle c1 w1 (Some ∅) 99 "G:1 again" 30;
   '(_, w3, _) ← Flush 31 c2 w2;
   Ret ((λ d, (d_time d, d_entry d)) <$> (w3 : list Delivery)))
  = Ret [(7, "G:1 event"); (7, " again")].
Proof. reflexivity. Qed.

(** ** The timestamp reported with a record *)

(** C2. The claim asks that every delivered record carries the timestamp of
    the first line that entered it.  [append] indeed leaves [timestamp] and
    [enrollTime] alone ([append_timestamp]), but two handlers append to an
    empty slot without initialising it.  In newline mode a first line that
    does not match the expression is appended to the fresh slot: the record
    made of the line stamped 42 is delivered with the zero time.  In group
    mode a line with the key of the slot is appended after a sweep emptied
    the slot: the record made of the line stamped 99 is delivered with
    the timestamp 7 of the record delivered before it. *)
Theorem first_line_timestamp_not_reported :
  (r ← NewMultiLineParser Samples.Compile Samples.ParseDuration (Some Samples.util_Logger)
         (Some (Samples.config "newline" "^[^ ]" "" "1000s")) (Some nop);
   match r with
   | inl _ => Ret []
   | inr c =>
       '(c1, w1, _) ← Handle c [] (Some ∅) 42 " at line 3" 50;
       '(_, w2, _) ← Flush 60 c1 w1;
       Ret ((λ d, (d_time d, d_entry d)) <$> (w2 : list Delivery))
   end) = Ret [(0, " at line 3")] ∧
  (r ← NewMultiLineParser Samples.Compile Samples.ParseDuration (Some Samples.util_Logger)
         (Some (Samples.config "group" "^(\S+)" "" "10ms")) (Some nop);
   match r with
   | inl _ => Ret []
   | inr c =>
       '(c1, w1, _) ← Handle c [] (Some ∅) 7 "G:1 event" 10;
       '(c2, w2, _) ← flush false 20000000 c1 w1;
       '(c3, w3, _) ← Handle c2 w2 (Some ∅) 99 "G:1 again" 20000001;
       '(_, w4, _) ← Flush 20000002 c3 w3;
       Ret ((λ d, (d_time d, d_entry d)) <$> (w4 : list Delivery))
   end) = Ret [(7, "G:1 event"); (7, " again")].
Proof. split; reflexivity. Qed.

(** ** Construction *)

Lemma len_pos (s : string) : (0 <? len s) = negb (String.eqb s "").
Proof. by destruct s. Qed.

Ltac case_mode m :=
  destruct (String.eqb_spec m "newline") as [->|?];
  [|destruct (String.eqb_spec m "group") as [->|?];
    [|destruct (String.eqb_spec m "unordered_group") as [->|?];
      [|destruct (String.eqb_spec m "continue") as [->|?]]]].

Lemma mode_switch_None (m : string) :
  mode_switch m = None ↔ m ∉ ["continue"; "newline"; "group"; "unordered_group"].
Proof.
  unfold mode_switch. rewrite !not_elem_of_cons.
  pose proof (not_elem_of_nil m).
  case_mode m; simpl; try (split; [done | intros (?&?&?&?&?); done]).
Qed.

Lemma mode_switch_Some (m : string) (h : ModeHandler) (mt rq : bool) :
  mode_switch m = Some (h, mt, rq) →
  m ∈ ["continue"; "newline"; "group"; "unordered_group"] ∧
  (rq = true ↔ m = "group" ∨ m = "unordered_group") ∧
  (mt = true ↔ h = UnorderedGroupMode).
Proof.
  unfold mode_switch. rewrite !elem_of_cons.
  case_mode m; simpl; [| | | |done]; intros [= <- <- <-]; intuition congruence.
Qed.

Section ConstructionProperties.

Variable Compile : string → option Regexp.
Variable ParseDuration : string → option Z.

Lemma expression_config_cases (cfg : Config) :
  ((Expression cfg = "" ∨ Compile (Expression cfg) = None) ∧
   ∃ e, expression_config Compile cfg = inl e) ∨
  (Expression cfg ≠ "" ∧ ∃ r, Compile (Expression cfg) = Some r ∧
                               expression_config Compile cfg = inr r).
Proof.
  unfold expression_config. rewrite len_pos.
  destruct (String.eqb_spec (Expression cfg) "") as [He|He]; simpl.
  - left. split; [by left | by eexists].
  - destruct (Compile (Expression cfg)) as [r|].
    + right. split; [done | by exists r].
    + left. split; [by right | by eexists].
Qed.

Lemma optional_config_cases (src msg : string) :
  ((src ≠ "" ∧ Compile src = None) ∧ optional_config Compile src msg = inl msg) ∨
  (¬ (src ≠ "" ∧ Compile src = None) ∧ ∃ r, optional_config Compile src msg = inr r).
Proof.
  unfold optional_config. rewrite len_pos.
  destruct (String.eqb_spec src "") as [He|He]; simpl.
  - right. split; [by intros [? _] | by eexists].
  - destruct (Compile src) as [r|].
    + right. split; [by intros [_ ?] | by eexists].
    + left. by split.
Qed.

Lemma max_wait_config_idle (cfg : Config) :
  max_wait_config ParseDuration cfg
  = match effective_idle ParseDuration cfg with
    | Some d => inr d
    | None => inl ErrMultiLineUnvalidMaxWaitTime
    end.
Proof.
  unfold max_wait_config, effective_idle.
  destruct (String.eqb (IdleDuration cfg) ""); simpl; [done|].
  by destruct (ParseDuration (IdleDuration cfg)).
Qed.

(** The outcomes of the constructor.  A configuration that is refused gives
    an error, unless both the logger and the handler are nil and the
    warning about the handler is reached first.  For the others, the
    outcome depends on the idle duration and on the logger. *)
Lemma NewMultiLineParser_outcome (logger' : option Logger) (config : option Config)
    (next' : option Handler) :
  (rejected Compile ParseDuration config ∧
   ((∃ e, NewMultiLineParser Compile ParseDuration logger' config next' = Ret (inl e)) ∨
    (logger' = None ∧ next' = None ∧
     NewMultiLineParser Compile ParseDuration logger' config next'
     = Panic "nil pointer dereference"))) ∨
  (¬ rejected Compile ParseDuration config ∧
   ∃ cfg d, config = Some cfg ∧ effective_idle ParseDuration cfg = Some d ∧
     (logger' = None → next' = None →
      NewMultiLineParser Compile ParseDuration logger' config next'
      = Panic "nil pointer dereference") ∧
     (is_Some logger' ∨ is_Some next' → d = 1 →
      NewMultiLineParser Compile ParseDuration logger' config next'
      = Panic "non-positive interval for NewTicker") ∧
     (is_Some logger' ∨ is_Some next' → 1 < d →
      ∃ ml, NewMultiLineParser Compile ParseDuration logger' config next' = Ret (inr ml) ∧
            maxWait ml = d) ∧
     (is_Some logger' → d <= 0 →
      ∃ ml, NewMultiLineParser Compile ParseDuration logger' config next' = Ret (inr ml) ∧
            maxWait ml = d) ∧
     (logger' = None → d <= 0 →
      NewMultiLineParser Compile ParseDuration logger' config next'
      = Panic "nil pointer dereference")).
Proof.
  destruct config as [cfg|]; [|left; split; [exact I | left; by eexists]].
  unfold NewMultiLineParser.
  destruct (expression_config_cases cfg) as [[He [e ->]]|(He & r & Hr & ->)].
  { left. split; [|left; by eexists]. simpl. tauto. }
  destruct (optional_config_cases (FirstLineExpression cfg)
              ErrCouldNotCompileMultiLineFirstLineRegex) as [[Hf ->]|(Hf & first & ->)].
  { left. split; [|left; by eexists]. simpl. tauto. }
  destruct (optional_config_cases (NextLineExpression cfg)
              ErrCouldNotCompileMultiLineNextLineRegex) as [[Hn ->]|(Hn & nxt & ->)].
  { left. split; [|left; by eexists]. simpl. tauto. }
  rewrite max_wait_config_idle.
  destruct (effective_idle ParseDuration cfg) as [d|] eqn:Hd.
  2:{ left. split; [|left; by eexists]. simpl. tauto. }
  destruct (mode_switch (Mode cfg)) as [[[h mt] rq]|] eqn:Hmode.
  2:{ left. split; [|left; by eexists]. apply mode_switch_None in Hmode. simpl. tauto. }
  apply mode_switch_Some in Hmode as (Hin & Hrq & _).
  assert (Hbase : ∀ P : Prop,
    rejected Compile ParseDuration (Some cfg) →
    ((Mode cfg = "group" ∨ Mode cfg = "unordered_group") ∧ d <= 0 → P) → P).
  { intros P Hrej HP. simpl in Hrej. rewrite Hr, Hd in Hrej.
    destruct Hrej as [?|[?|[?|[?|[?|[?|[Hm (d' & [= <-] & Hd')]]]]]]]; try done.
    by apply HP. }
  assert (Hquot : 0 < d → d ≠ 1 → 0 < d ÷ 2).
  { intros H0 H1. pose proof (Z.quot_le_lower_bound d 2 1). lia. }
  destruct (Z.gtb_spec d 0) as [Hpos|Hneg].
  - right. split; [intros Hrej; apply (Hbase False Hrej); lia|].
    exists cfg, d. split; [done|]. split; [done|].
    unfold startFlusher, NewTicker. simpl.
    destruct (Z.leb_spec (d ÷ 2) 0) as [Hq|Hq].
    + assert (d = 1) as -> by (destruct (Z.eq_dec d 1); [done | specialize (Hquot Hpos); lia]).
      split; [by intros -> ->|]. split.
      { intros [[l ->]|[n ->]] _; [by destruct next'|done]. }
      split; [intros _ ?; lia|]. split; [intros _ ?; lia|]. intros _ ?; lia.
    + assert (d ≠ 1) by (intros ->; by compute in Hq).
      split; [by intros -> ->|]. split; [done|]. split.
      { intros [[l ->]|[n ->]] _; [destruct next'|]; simpl; by eexists. }
      split; [intros _ ?; lia|]. intros _ ?; lia.
  - destruct rq.
    + left. split.
      { simpl. do 6 right. split; [by apply Hrq | exists d; split; [done | lia]]. }
      destruct next' as [n|]; simpl; [left; by eexists|].
      destruct logger' as [l|]; simpl; [left; by eexists|]. by right.
    + right. split.
      { intros Hrej. apply (Hbase False Hrej). intros [Hm _]. apply Hrq in Hm. done. }
      exists cfg, d. split; [done|]. split; [done|].
      split; [by intros -> ->|]. split; [intros _ ?; lia|]. split; [intros _ ?; lia|].
      split.
      * intros [l ->] _. destruct next'; simpl; by eexists.
      * intros -> _. by destruct next'.
Qed.

End ConstructionProperties.

Lemma NewMultiLineParser_error_iff (Compile : string → option Regexp)
    (ParseDuration : string → option Z) (logger' : option Logger) (config : option Config)
    (next' : option Handler) :
  is_Some logger' ∨ is_Some next' →
  (∃ e, NewMultiLineParser Compile ParseDuration logger' config next' = Ret (inl e))
  ↔ rejected Compile ParseDuration config.
Proof.
  intros Hsafe.
  assert (Hnn : ¬ (logger' = None ∧ next' = None)).
  { intros [-> ->]. destruct Hsafe as [[? [=]]|[? [=]]]. }
  destruct (NewMultiLineParser_outcome Compile ParseDuration logger' config next')
    as [[Hrej [He|(? & ? & _)]]|(Hacc & cfg & d & -> & Hd & Hnil & H1 & Hbig & Hoff & Hoffnil)].
  - done.
  - by destruct Hnn.
  - split; [|done]. intros [e He]. exfalso.
    destruct (Z.lt_trichotomy d 1) as [Hlt|[->|Hgt]].
    + destruct logger' as [l|].
      * destruct Hoff as (ml & Hml & _); [by eexists | lia | congruence].
      * rewrite Hoffnil in He by (done || lia). done.
    + rewrite H1 in He by done. done.
    + destruct (Hbig Hsafe Hgt) as (ml & Hml & _). congruence.
Qed.

Lemma NewMultiLineParser_instance (Compile : string → option Regexp)
    (ParseDuration : string → option Z) (logger' : option Logger) (cfg : Config)
    (next' : option Handler) (d : Z) :
  ¬ rejected Compile ParseDuration (Some cfg) →
  effective_idle ParseDuration cfg = Some d → d ≠ 1 →
  is_Some logger' ∨ (is_Some next' ∧ 0 < d) →
  ∃ ml, NewMultiLineParser Compile ParseDuration logger' (Some cfg) next' = Ret (inr ml) ∧
        maxWait ml = d.
Proof.
  intros Hacc Hd Hne Hsafe.
  destruct (NewMultiLineParser_outcome Compile ParseDuration logger' (Some cfg) next')
    as [[Hrej _]|(_ & cfg' & d' & [= <-] & Hd' & _ & _ & Hbig & Hoff & _)]; [done|].
  assert (d' = d) as -> by congruence.
  destruct Hsafe as [Hl|[Hn Hpos]].
  - destruct (Z.le_gt_cases d 0); [by apply Hoff|]. apply Hbig; [by left | lia].
  - apply Hbig; [by right | lia].
Qed.

(** C6. The constructor returns an error exactly for the configurations
    listed by the claim ([NewMultiLineParser_error_iff], when the logger or
    the handler is given), but it does not create an instance for every
    other configuration: when the effective idle duration is one
    nanosecond the constructor panics, whatever the logger and the handler;
    unless both are nil the panic is that of [time.NewTicker] in
    [startFlusher], [maxWait / 2] being zero. *)
Theorem one_nanosecond_idle_panics (Compile : string → option Regexp)
    (ParseDuration : string → option Z) (logger' : option Logger) (cfg : Config)
    (next' : option Handler) :
  ¬ rejected Compile ParseDuration (Some cfg) →
  effective_idle ParseDuration cfg = Some 1 →
  ∃ msg,
    NewMultiLineParser Compile ParseDuration logger' (Some cfg) next' = Panic msg ∧
    (is_Some logger' ∨ is_Some next' → msg = "non-positive interval for NewTicker").
Proof.
  intros Hacc Hd.
  destruct (NewMultiLineParser_outcome Compile ParseDuration logger' (Some cfg) next')
    as [[Hrej _]|(_ & cfg' & d' & [= <-] & Hd' & Hnil & H1 & _)]; [done|].
  assert (d' = 1) as -> by congruence.
  destruct logger' as [l|].
  - eexists. split; [apply H1; [left; by eexists | done] | done].
  - destruct next' as [n|].
    + eexists. split; [apply H1; [right; by eexists | done] | done].
    + eexists. split; [by apply Hnil|]. by intros [[? [=]]|[? [=]]].
Qed.

Lemma one_nanosecond_idle_panics_witness :
  let cfg := Samples.config "continue" Samples.continued_source " " "1ns" in
  ¬ rejected Samples.Compile Samples.ParseDuration (Some cfg) ∧
  effective_idle Samples.ParseDuration cfg = Some 1 ∧
  ∃ msg,
    NewMultiLineParser Samples.Compile Samples.ParseDuration (Some Samples.util_Logger)
      (Some cfg) (Some nop) = Panic msg ∧
    (is_Some (Some Samples.util_Logger) ∨ is_Some (Some nop) →
     msg = "non-positive interval for NewTicker").
Proof.
  intros cfg.
  assert (Hacc : ¬ rejected Samples.Compile Samples.ParseDuration (Some cfg)).
  { simpl. intros [?|[?|[[? _]|[[? _]|[Hm|[?|[[?|?] _]]]]]]]; try done.
    apply Hm. apply list_elem_of_here. }
  split; [exact Hacc|]. split; [reflexivity|].
  apply (one_nanosecond_idle_panics _ _ (Some Samples.util_Logger) cfg (Some nop) Hacc
           eq_refl).
Defined.

Example one_nanosecond_idle_panics_in_NewTicker :
  NewMultiLineParser Samples.Compile Samples.ParseDuration (Some Samples.util_Logger)
    (Some (Samples.config "continue" Samples.continued_source " " "1ns")) (Some nop)
  = Panic "non-positive interval for NewTicker".
Proof. reflexivity. Qed.

Example construct_one_second :
  ∃ ml, NewMultiLineParser Samples.Compile Samples.ParseDuration (Some Samples.util_Logger)
          (Some (Samples.config "group" "^(\S+)" "" "1000s")) None = Ret (inr ml) ∧
        flusher ml = Some {| interval := 500 * Second; stopped := false |} ∧
        multiline ml = Some (newMultiLineEntry "").
Proof. eexists. split; [reflexivity|]. by split. Qed.

Example construct_group_without_idle :
  NewMultiLineParser Samples.Compile Samples.ParseDuration (Some Samples.util_Logger)
    (Some (Samples.config "group" "^(\S+)" "" "0")) None
  = Ret (inl ErrMultiLineModeRequireMaxWait).
Proof. reflexivity. Qed.

Example construct_without_logger_and_handler :
  NewMultiLineParser Samples.Compile Samples.ParseDuration None
    (Some (Samples.config "newline" "^[^ ]" "" "1000s")) None
  = Panic "nil pointer dereference".
Proof. reflexivity. Qed.

(** ** The periodic sweep *)







Example tick_without_logger_panics :
  let c := Samples.holding [Samples.record "a" "old" 1 0 1; Samples.record "b" "young" 1 9 2]
             10 Samples.failing in
  tick 11 c [] = Ret (Samples.holding [Samples.record "b" "young" 1 9 2] 10 Samples.failing,
                      [delivery_of (Samples.record "a" "old" 1 0 1)]) ∧
  tick 11 (Samples.without_logger c) [] = Panic "nil pointer dereference".
Proof. split; reflexivity. Qed.


(** * Further properties of the code *)

(** ** Joining lines *)

Lemma join_empty_l (sep b : string) : join "" sep b = b.
Proof. reflexivity. Qed.

Lemma join_nonempty (a sep b : string) : a ≠ "" → join a sep b = a +:+ sep +:+ b.
Proof.
  intros Ha. unfold join. destruct a as [|x a]; [done|]. simpl.
  by rewrite append_assoc.
Qed.

Lemma concat_cons_nonempty (sep a b : string) (ls : list string) :
  String.concat sep ((a +:+ sep +:+ b) :: ls) = String.concat sep (a :: b :: ls).
Proof.
  destruct ls as [|c ls].
  - reflexivity.
  - change (((a +:+ sep +:+ b) +:+ sep +:+ String.concat sep (c :: ls))
            = a +:+ sep +:+ b +:+ sep +:+ String.concat sep (c :: ls)).
    by rewrite !append_assoc.
Qed.

Lemma foldl_join (sep a : string) (ls : list string) :
  foldl (λ a b, join a sep b) a ls = String.concat sep (skip_empty (a :: ls)).
Proof.
  revert a. induction ls as [|b ls IH]; intros a.
  - simpl. by destruct (String.eqb_spec a "") as [->|].
  - simpl foldl. rewrite IH. simpl skip_empty at 2.
    destruct (String.eqb_spec a "") as [->|Ha].
    + by rewrite join_empty_l.
    + rewrite join_nonempty by done.
      assert (Hne : a +:+ sep +:+ b ≠ "") by (by destruct a).
      simpl. destruct (String.eqb_spec (a +:+ sep +:+ b) ""); [done|].
      apply concat_cons_nonempty.
Qed.

(** X1. The text of a record after any number of appends is the texts
    appended so far joined by the separator, where empty texts that come
    first are dropped: the separator is never put in front of the text, but
    an empty text appended after a non-empty one still adds a separator. *)
Theorem append_joins_lines (sep : string) (d : multilineEntry)
    (ls : list (gmap string string * string)) :
  entry (foldl (λ d l, append d l.1 l.2 sep) d ls)
  = String.concat sep (skip_empty (entry d :: ls.*2)).
Proof.
  rewrite <- foldl_join. revert d.
  induction ls as [|[l e] ls IH]; intros d; simpl; [done|]. by rewrite IH.
Qed.

(** ** Expressions without capturing groups *)

Lemma substring_all (s : string) : String.substring 0 (String.length s) s = s.
Proof. induction s as [|a s IH]; simpl; [done | by rewrite IH]. Qed.

Lemma each_match_no_groups (s : string) (ms : list (list Z)) (k : cursor) :
  Forall (λ m, (length m <= 2)%nat) ms → each_match s ms k = Ret k.
Proof.
  induction 1 as [|m ms Hm _ IH]; simpl; [done|].
  rewrite drop_ge by done. simpl. exact IH.
Qed.

(** X2. When no match of the expression carries a capturing group (the
    expression has none, or it does not match at all), [disjoint] selects
    nothing: the selected text, hence the group key, is empty and the
    unselected text is the whole line. *)
Theorem disjoint_without_groups (e : Regexp) (s : string) :
  Forall (λ m, (length m <= 2)%nat) (FindAllSubmatchIndex e s) →
  disjoint e s = Ret ("", s).
Proof.
  intros Hms. unfold disjoint. rewrite each_match_no_groups by done. simpl.
  destruct (Z.ltb_spec 0 (len s)) as [Hpos|Hzero].
  - rewrite slice_ret by (unfold len in *; lia). simpl.
    unfold len. rewrite Z.sub_0_r, Nat2Z.id. change (Z.to_nat 0) with 0%nat.
    by rewrite substring_all.
  - simpl. destruct s; [done|]. unfold len in Hzero. simpl in Hzero. lia.
Qed.

Lemma disjoint_without_groups_witness :
  Forall (λ m, (length m <= 2)%nat) (FindAllSubmatchIndex Samples.not_indented "line 1") ∧
  disjoint Samples.not_indented "line 1" = Ret ("", "line 1").
Proof.
  assert (H : Forall (λ m, (length m <= 2)%nat)
                (FindAllSubmatchIndex Samples.not_indented "line 1")).
  { repeat constructor. }
  split; [exact H | apply (disjoint_without_groups _ _ H)].
Defined.

(** ** Flushing twice *)

Lemma forced_flush_keeps_nothing (now : Z) (c : multiLineParser) (ts : list multilineEntry) :
  List.filter (λ t, (0 <? lines t) && negb (due true now c t)) ts = [].
Proof.
  induction ts as [|t ts IH]; simpl; [done|].
  unfold due at 1. simpl. rewrite andb_true_r.
  destruct (0 <? lines t); simpl; exact IH.
Qed.

(** X3. After a forced flush nothing is left to deliver: any further flush,
    forced or not, makes no downstream call, returns nil and leaves the
    parser as it is. *)
Theorem flush_twice (now : Z) (c : multiLineParser) (w : list Delivery) :
  registry_ok c →
  ∃ c1 w1 e1,
    flush true now c w = Ret (c1, w1, e1) ∧
    ∀ force now', flush force now' c1 w1 = Ret (c1, w1, None).
Proof.
  intros Hok. destruct (flush_spec true now c w Hok) as (c1 & Hflush & Hc1).
  eexists c1, _, _. split; [exact Hflush|]. intros force now'.
  unfold registry_ok in Hok. unfold flush. subst c1.
  destruct (multitrack c) eqn:Hmt.
  - rewrite forced_flush_keeps_nothing. simpl. rewrite Hmt. reflexivity.
  - destruct Hok as [t Ht]. rewrite Ht.
    destruct (due true now c t) eqn:Hdue; simpl; rewrite Hmt; simpl.
    + reflexivity.
    + rewrite Ht. simpl. rewrite due_expired in Hdue. simpl in Hdue.
      rewrite andb_true_r in Hdue. rewrite Hdue. reflexivity.
Qed.

Lemma flush_twice_witness :
  let c := Samples.holding [Samples.record "a" "one" 2 0 1; Samples.record "b" "two" 1 9 2]
             10 Samples.failing in
  registry_ok c ∧
  ∃ c1 w1 e1,
    flush true 5 c [] = Ret (c1, w1, e1) ∧
    ∀ force now', flush force now' c1 w1 = Ret (c1, w1, None).
Proof.
  intros c.
  assert (Hok : registry_ok c) by (repeat constructor; simpl; lia).
  split; [exact Hok | apply (flush_twice 5 c [] Hok)].
Defined.

(** ** One line, at most one delivery *)

Lemma same_config_set_multiline (c : multiLineParser) (ml : multilineEntry) :
  same_config c (set_multiline c ml).
Proof. by repeat split. Qed.

Lemma handleNewLineMode_shape (c : multiLineParser) (w : list Delivery)
    (l : gmap string string) (t : Z) (e : string) (now : Z) :
  is_Some (multiline c) → parser_ok c →
  ∃ c' w' err, handleNewLineMode c w l t e now = Ret (c', w', err) ∧
    same_config c c' ∧ is_Some (multiline c') ∧ one_call c w w' err.
Proof.
  intros [ml Hml] (Hexpr & Hfirst & Hnext). unfold handleNewLineMode. rewrite Hml. simpl.
  destruct (Match (expressionRegex c) e); simpl.
  - destruct (selection_returns (firstLineRegex c) e Hfirst) as [x Hx].
    destruct (lines ml >? 0); simpl; rewrite Hx; simpl;
      eexists _, _, _; (split; [reflexivity|]);
      (split; [apply same_config_set_multiline|]); (split; [by eexists|]).
    + right. by eexists.
    + by left.
  - destruct (selection_returns (nextLineRegex c) e Hnext) as [x ->]. simpl.
    eexists _, _, _. split; [reflexivity|].
    split; [apply same_config_set_multiline|]. split; [by eexists | by left].
Qed.

Lemma handleGroupMode_shape (c : multiLineParser) (w : list Delivery)
    (l : gmap string string) (t : Z) (e : string) (now : Z) :
  is_Some (multiline c) → parser_ok c →
  ∃ c' w' err, handleGroupMode c w l t e now = Ret (c', w', err) ∧
    same_config c c' ∧ is_Some (multiline c') ∧ one_call c w w' err.
Proof.
  intros [ml Hml] (Hexpr & Hfirst & Hnext). unfold handleGroupMode. rewrite Hml. simpl.
  destruct (disjoint_returns (expressionRegex c) e (Hexpr e)) as [[k i] ->]. simpl.
  destruct (String.eqb (key ml) k).
  - assert (Hline : returns (match nextLineRegex c with
                             | Some _ => selection (nextLineRegex c) e
                             | None => Ret i
                             end)).
    { destruct (nextLineRegex c) eqn:Hn; [|by eexists].
      apply selection_returns. intros r' [= <-]. by apply Hnext. }
    destruct Hline as [x ->]. simpl.
    eexists _, _, _. split; [reflexivity|].
    split; [apply same_config_set_multiline|]. split; [by eexists | by left].
  - destruct (selection_returns (firstLineRegex c) e Hfirst) as [x Hx].
    destruct (lines ml >? 0); simpl; rewrite Hx; simpl;
      eexists _, _, _; (split; [reflexivity|]);
      (split; [apply same_config_set_multiline|]); (split; [by eexists|]).
    + right. by eexists.
    + by left.
Qed.

Lemma handleContinueMode_shape (c : multiLineParser) (w : list Delivery)
    (l : gmap string string) (t : Z) (e : string) (now : Z) :
  is_Some (multiline c) → parser_ok c →
  ∃ c' w' err, handleContinueMode c w l t e now = Ret (c', w', err) ∧
    same_config c c' ∧ is_Some (multiline c') ∧ one_call c w w' err.
Proof.
  intros [ml Hml] (Hexpr & Hfirst & Hnext). unfold handleContinueMode. rewrite Hml. simpl.
  destruct (disjoint_returns (expressionRegex c) e (Hexpr e)) as [[k i] ->]. simpl.
  destruct (String.eqb k ""); simpl.
  - destruct (lines ml >? 0).
    + destruct (selection_returns (nextLineRegex c) e Hnext) as [x ->]. simpl.
      eexists _, _, _. split; [reflexivity|].
      split; [apply same_config_set_multiline|]. split; [by eexists|].
      right. by eexists.
    + eexists _, _, _. split; [reflexivity|].
      split; [apply same_config_refl|]. split; [by eexists|].
      right. by eexists.
  - destruct (lines ml >? 0).
    + destruct (selection_returns (nextLineRegex c) k Hnext) as [x ->]. simpl.
      eexists _, _, _. split; [reflexivity|].
      split; [apply same_config_set_multiline|]. split; [by eexists | by left].
    + destruct (selection_returns (firstLineRegex c) k Hfirst) as [x ->]. simpl.
      eexists _, _, _. split; [reflexivity|].
      split; [apply same_config_set_multiline|]. split; [by eexists | by left].
Qed.

Lemma same_config_wired (c c' : multiLineParser) :
  same_config c c' → wired c → (is_Some (multiline c) → is_Some (multiline c')) → wired c'.
Proof.
  intros (Hm & _ & _ & _ & _ & _ & Hmt & _) Hw Hs. unfold wired in *.
  rewrite Hm, Hmt. destruct (modeHandler c); try done; by destruct Hw as [? ?%Hs].
Qed.

Lemma Handle_shape (c : multiLineParser) (w : list Delivery)
    (l : option (gmap string string)) (t : Z) (e : string) (now : Z) :
  wired c → parser_ok c →
  ∃ c' w' err, Handle c w l t e now = Ret (c', w', err) ∧
    one_call c w w' err ∧ same_config c c' ∧ wired c'.
Proof.
  intros Hw Hok. unfold Handle. pose proof Hw as Hw'. unfold wired in Hw'.
  destruct (modeHandler c) eqn:Hmode.
  - destruct Hw' as [_ Hs].
    destruct (handleNewLineMode_shape c w (default ∅ l) t e now Hs Hok)
      as (c' & w' & err & -> & Hsame & Hs' & Hone).
    eexists _, _, _. split; [reflexivity|]. split; [done|]. split; [done|].
    by apply (same_config_wired c).
  - destruct Hw' as [_ Hs].
    destruct (handleGroupMode_shape c w (default ∅ l) t e now Hs Hok)
      as (c' & w' & err & -> & Hsame & Hs' & Hone).
    eexists _, _, _. split; [reflexivity|]. split; [done|]. split; [done|].
    by apply (same_config_wired c).
  - destruct (handleUnorderedGroupMode_silent c w (default ∅ l) t e now Hok)
      as (c' & -> & Hsame).
    eexists _, _, _. split; [reflexivity|]. split; [by left|]. split; [done|].
    destruct Hsame as (Hm & _ & _ & _ & _ & _ & Hmt & _). unfold wired.
    by rewrite Hm, Hmode, Hmt.
  - destruct Hw' as [_ Hs].
    destruct (handleContinueMode_shape c w (default ∅ l) t e now Hs Hok)
      as (c' & w' & err & -> & Hsame & Hs' & Hone).
    eexists _, _, _. split; [reflexivity|]. split; [done|]. split; [done|].
    by apply (same_config_wired c).
Qed.

(** X4. Whatever the mode, handling a sequence of lines never panics, keeps
    the calls made before, makes at most one downstream call per line, and
    returns one result per line; every error returned is an answer of the
    downstream handler to one of these calls: [Handle] has no error of its
    own. *)
Theorem HandleAll_calls (c : multiLineParser) (w : list Delivery) (ls : list Line) :
  wired c → parser_ok c →
  ∃ c' ds es,
    HandleAll c w ls = Ret (c', w ++ ds, es) ∧
    (length ds <= length ls)%nat ∧ length es = length ls ∧
    (∀ err, Some err ∈ es → ∃ w0 d, d ∈ ds ∧ next c w0 d = Some err) ∧
    same_config c c' ∧ wired c'.
Proof.
  revert c w. induction ls as [|l ls IH]; intros c w Hw Hok; simpl.
  - exists c, [], []. rewrite app_nil_r. split; [done|]. split; [done|]. split; [done|].
    split; [|split; [apply same_config_refl | done]].
    intros err Herr. by apply elem_of_nil in Herr.
  - destruct (Handle_shape c w (l_labels l) (l_time l) (l_text l) (l_now l) Hw Hok)
      as (c1 & w1 & err1 & -> & Hone & Hsame1 & Hw1).
    simpl.
    destruct (IH c1 w1 Hw1 (same_config_parser_ok c c1 Hsame1 Hok))
      as (c2 & ds & es & -> & Hlen & Hes & Herrs & Hsame2 & Hw2).
    simpl.
    assert (Hnext : next c1 = next c) by (by destruct Hsame1 as (?&?&?&?&?&?&?&?&?&?)).
    destruct Hone as [[-> ->]|(d & -> & ->)].
    + exists c2, ds, (None :: es). split; [done|]. split; [lia|]. split; [simpl; lia|].
      split; [|split; [same_config | done]].
      intros err [Herr|Herr]%elem_of_cons; [done|].
      destruct (Herrs err Herr) as (w0 & d & Hd & Hans). exists w0, d. by rewrite <- Hnext.
    + exists c2, (d :: ds), (next c w d :: es). rewrite <- app_assoc. split; [done|].
      split; [simpl; lia|]. split; [simpl; lia|].
      split; [|split; [same_config | done]].
      intros err [Herr|Herr]%elem_of_cons.
      * exists w, d. split; [apply list_elem_of_here | done].
      * destruct (Herrs err Herr) as (w0 & d' & Hd & Hans). exists w0, d'.
        split; [by apply list_elem_of_further | by rewrite <- Hnext].
Qed.

Lemma sample_wired (h : ModeHandler) (e : Regexp) (sep : string) (wait : Z) (n : Handler) :
  wired (Samples.parser h e sep wait n).
Proof. destruct h; simpl; unfold wired; simpl; try done; split; try done; by eexists. Qed.

Lemma HandleAll_calls_witness :
  let c := Samples.holding_one GroupMode (Samples.record "G:1" "G:1 event" 1 10 7) 5
             Samples.failing in
  let ls := Samples.line 9 <$> ["G:1 one"; "G:2 event"; "G:3 event"] in
  wired c ∧ parser_ok c ∧
  ∃ c' ds es,
    HandleAll c [] ls = Ret (c', [] ++ ds, es) ∧
    (length ds <= length ls)%nat ∧ length es = length ls ∧
    (∀ err, Some err ∈ es → ∃ w0 d, d ∈ ds ∧ next c w0 d = Some err) ∧
    same_config c c' ∧ wired c'.
Proof.
  intros c ls.
  assert (Hw : wired c) by (split; [done | by eexists]).
  assert (Hok : parser_ok c) by (split; [apply first_word_ok | by split]).
  split; [exact Hw|]. split; [exact Hok|].
  apply (HandleAll_calls c [] ls Hw Hok).
Defined.

(** ** No operation panics *)

Lemma flush_returns (force : bool) (now : Z) (c : multiLineParser) (w : list Delivery) :
  wired c →
  ∃ c' w' e, flush force now c w = Ret (c', w', e) ∧ same_config c c' ∧ wired c'.
Proof.
  intros Hw. unfold flush. pose proof Hw as Hw'. unfold wired in Hw'.
  destruct (multitrack c) eqn:Hmt.
  - destruct (sweep force now c (multilines c) [] w []) as [[g w'] err].
    eexists _, _, _. split; [reflexivity|]. split; [by repeat split|].
    unfold wired in *. simpl. by rewrite Hmt.
  - assert (Hs : is_Some (multiline c)).
    { destruct (modeHandler c); try (by destruct Hw'); congruence. }
    destruct Hs as [t Ht]. rewrite Ht. simpl.
    destruct ((lines t >? 0) && expired force now c t); simpl.
    + eexists _, _, _. split; [reflexivity|].
      split; [apply same_config_set_multiline|].
      apply (same_config_wired c); [apply same_config_set_multiline | done | by eexists].
    + eexists _, _, _. split; [reflexivity|]. split; [apply same_config_refl | done].
Qed.

Lemma wired_halted (c : multiLineParser) : wired c → wired (halted c).
Proof. unfold halted. by destruct (flusher c). Qed.

Lemma parser_ok_halted (c : multiLineParser) : parser_ok c → parser_ok (halted c).
Proof. unfold halted. by destruct (flusher c). Qed.

Lemma tick_returns (now : Z) (c : multiLineParser) (w : list Delivery) :
  wired c → is_Some (logger c) →
  ∃ c' w', tick now c w = Ret (c', w') ∧ same_config c c' ∧ wired c'.
Proof.
  intros Hw [l Hl]. unfold tick.
  destruct (flush_returns false now c w Hw) as (c' & w' & e & -> & Hsame & Hw').
  simpl.
  assert (Hl' : logger c' = Some l) by (destruct Hsame as (?&?&?&?&?&?&?&?&?&->); done).
  rewrite Hl'. destruct e; simpl; by eexists _, _.
Qed.

Lemma same_config_logger (c c' : multiLineParser) :
  same_config c c' → is_Some (logger c) → is_Some (logger c').
Proof. by intros (?&?&?&?&?&?&?&?&?&->). Qed.

Lemma step_keeps (c : multiLineParser) (w : list Delivery) (op : Op) :
  wired c → parser_ok c → is_Some (logger c) →
  ∃ c' w', step c w op = Ret (c', w') ∧ wired c' ∧ parser_ok c' ∧ is_Some (logger c').
Proof.
  intros Hw Hok Hlog. destruct op as [l|now|now|now]; simpl.
  - destruct (Handle_shape c w (l_labels l) (l_time l) (l_text l) (l_now l) Hw Hok)
      as (c' & w' & err & -> & _ & Hsame & Hw').
    simpl. eexists _, _. split; [reflexivity|]. split; [done|].
    split; [by apply (same_config_parser_ok c) | by apply (same_config_logger c)].
  - unfold Flush. destruct (flush_returns true now c w Hw) as (c' & w' & e & -> & Hsame & Hw').
    simpl. eexists _, _. split; [reflexivity|]. split; [done|].
    split; [by apply (same_config_parser_ok c) | by apply (same_config_logger c)].
  - destruct (tick_returns now c w Hw Hlog) as (c' & w' & -> & Hsame & Hw').
    eexists _, _. split; [reflexivity|]. split; [done|].
    split; [by apply (same_config_parser_ok c) | by apply (same_config_logger c)].
  - unfold Stop. fold (halted c).
    assert (Hlog' : is_Some (logger (halted c))).
    { unfold halted. by destruct (flusher c). }
    destruct (flush_returns true now (halted c) w (wired_halted c Hw))
      as (c' & w' & e & -> & Hsame & Hw').
    simpl. eexists _, _. split; [reflexivity|]. split; [done|]. split.
    + apply (same_config_parser_ok (halted c)); [done | by apply parser_ok_halted].
    + by apply (same_config_logger (halted c)).
Qed.

(** X5. A parser that has a logger and whose registry fits its mode never
    panics of its own: any sequence of [Handle], [Flush], ticks of the
    flusher and [Stop], in any order, runs to its end (no nil slot or nil
    logger is dereferenced, no slice or index is out of range), and the
    parser still has its logger and a registry that fits its mode
    afterwards.  (Without a logger a tick panics when a delivery fails, see
    [tick_without_logger_panics].) *)
Theorem run_never_panics (c : multiLineParser) (w : list Delivery) (ops : list Op) :
  wired c → parser_ok c → is_Some (logger c) →
  ∃ c' w', run c w ops = Ret (c', w') ∧ wired c' ∧ parser_ok c' ∧ is_Some (logger c').
Proof.
  revert c w. induction ops as [|op ops IH]; intros c w Hw Hok Hlog; simpl.
  - by eexists _, _.
  - destruct (step_keeps c w op Hw Hok Hlog) as (c1 & w1 & -> & Hw1 & Hok1 & Hlog1). simpl.
    by apply IH.
Qed.

Lemma run_never_panics_witness :
  let c := Samples.parser GroupMode Samples.first_word " " 10 Samples.failing in
  let ops := [OpHandle (Samples.line 1 "G:1 event"); OpTick 5; OpHandle (Samples.line 2 "G:1 one");
              OpTick 20; OpHandle (Samples.line 3 "G:2 event"); OpFlush 21; OpStop 22] in
  wired c ∧ parser_ok c ∧ is_Some (logger c) ∧
  ∃ c' w', run c [] ops = Ret (c', w') ∧ wired c' ∧ parser_ok c' ∧ is_Some (logger c').
Proof.
  intros c ops.
  assert (Hw : wired c) by apply sample_wired.
  assert (Hok : parser_ok c) by apply sample_parser_ok.
  assert (Hlog : is_Some (logger c)) by (by eexists).
  split; [exact Hw|]. split; [exact Hok|]. split; [exact Hlog|].
  apply (run_never_panics c [] ops Hw Hok Hlog).
Defined.

Example run_with_failing_handler :
  let c := Samples.parser GroupMode Samples.first_word " " 10 Samples.failing in
  let ops := [OpHandle (Samples.line 1 "G:1 event"); OpTick 20] in
  (r ← run c [] ops; Ret (d_entry <$> (r.2 : list Delivery))) = Ret ["G:1 event"] ∧
  run (Samples.without_logger c) [] ops = Panic "nil pointer dereference".
Proof. split; reflexivity. Qed.

(** ** The instance made by the constructor *)

Lemma optional_config_inr (Compile : string → option Regexp) (src msg : string)
    (r : option Regexp) :
  optional_config Compile src msg = inr r →
  ∀ e, r = Some e → Compile src = Some e.
Proof.
  unfold optional_config. destruct (0 <? len src); [|by intros [= <-]].
  destruct (Compile src) as [x|]; [|done]. by intros [= <-] e [= <-].
Qed.

Lemma NewMultiLineParser_inr (Compile : string → option Regexp)
    (ParseDuration : string → option Z) (logger' : option Logger) (config : option Config)
    (next' : option Handler) (ml : multiLineParser) :
  NewMultiLineParser Compile ParseDuration logger' config next' = Ret (inr ml) →
  ∃ cfg h rq,
    config = Some cfg ∧
    Compile (Expression cfg) = Some (expressionRegex ml) ∧
    (∀ e, firstLineRegex ml = Some e → Compile (FirstLineExpression cfg) = Some e) ∧
    (∀ e, nextLineRegex ml = Some e → Compile (NextLineExpression cfg) = Some e) ∧
    effective_idle ParseDuration cfg = Some (maxWait ml) ∧
    mode_switch (Mode cfg) = Some (h, multitrack ml, rq) ∧
    modeHandler ml = h ∧ separator ml = Separator cfg ∧
    multilines ml = [] ∧
    multiline ml = (if multitrack ml then None else Some (newMultiLineEntry "")) ∧
    next ml = default nop next' ∧
    flusher ml = (if maxWait ml >? 0
                  then Some {| interval := maxWait ml ÷ 2; stopped := false |}
                  else None) ∧
    ((maxWait ml >? 0) = true → 0 < maxWait ml ÷ 2) ∧
    (rq = true → 0 < maxWait ml) ∧
    logger ml = (λ l, With l "component" "multiline") <$> logger' ∧
    (next' = None → is_Some logger') ∧
    (maxWait ml <= 0 → is_Some logger').
Proof.
  destruct config as [cfg|]; [|done]. unfold NewMultiLineParser.
  destruct (expression_config_cases Compile cfg) as [[_ [e ->]]|(_ & r & Hr & ->)]; [done|].
  destruct (optional_config Compile (FirstLineExpression cfg) _) as [|first] eqn:Hf; [done|].
  destruct (optional_config Compile (NextLineExpression cfg) _) as [|nxt] eqn:Hn; [done|].
  rewrite max_wait_config_idle.
  destruct (effective_idle ParseDuration cfg) as [d|] eqn:Hd; [|done].
  destruct (mode_switch (Mode cfg)) as [[[h mt] rq]|] eqn:Hmode; [|done].
  destruct (Z.gtb_spec d 0) as [Hpos|Hneg].
  - unfold startFlusher, NewTicker. simpl.
    destruct (Z.leb_spec (d ÷ 2) 0) as [Hq|Hq]; simpl.
    { destruct next'; [done | by destruct logger']. }
    intros Hret.
    assert (Hnl : next' = None → is_Some logger').
    { intros ->. destruct logger'; [by eexists | done]. }
    assert (Hml : ml = {| modeHandler := h; expressionRegex := r; firstLineRegex := first;
                          nextLineRegex := nxt; maxWait := d; separator := Separator cfg;
                          logger := (λ l, With l "component" "multiline") <$> logger';
                          multitrack := mt; multilines := [];
                          multiline := if mt then None else Some (newMultiLineEntry "");
                          flusher := Some {| interval := d ÷ 2; stopped := false |};
                          next := default nop next' |}).
    { destruct next'; [by injection Hret as <-|].
      destruct logger'; [by injection Hret as <- | done]. }
    subst ml. simpl. exists cfg, h, rq.
    destruct (Z.gtb_spec d 0); [|lia].
    repeat split; try done; try lia.
    + by apply (optional_config_inr _ _ _ _ Hf).
    + by apply (optional_config_inr _ _ _ _ Hn).
  - destruct rq.
    { destruct next'; [done | by destruct logger']. }
    intros Hret.
    assert (Hl : is_Some logger').
    { destruct logger'; [by eexists|]. by destruct next'. }
    destruct Hl as [l ->].
    assert (Hml : ml = {| modeHandler := h; expressionRegex := r; firstLineRegex := first;
                          nextLineRegex := nxt; maxWait := d; separator := Separator cfg;
                          logger := Some (With l "component" "multiline");
                          multitrack := mt; multilines := [];
                          multiline := if mt then None else Some (newMultiLineEntry "");
                          flusher := None;
                          next := default nop next' |}).
    { destruct next'; by injection Hret as <-. }
    subst ml. simpl. exists cfg, h, false.
    destruct (Z.gtb_spec d 0); [lia|].
    repeat split; try done.
    + by apply (optional_config_inr _ _ _ _ Hf).
    + by apply (optional_config_inr _ _ _ _ Hn).
Qed.

(** X6. An instance returned by the constructor has a registry that fits its
    mode and holds no line whenever the compiled expressions respect the
    engine's contract, so a flush of the fresh instance delivers nothing; a
    missing downstream handler is replaced by one that accepts everything;
    the ticker runs, at half the idle duration, exactly when the idle
    duration is positive, which is always the case in the two group modes.
    The instance's logger is the given logger with the component context,
    and nil when no logger was given; the constructor returns an instance
    without a logger only when a handler was given and the idle duration is
    positive (its two warnings are written to the instance's logger). *)
Theorem NewMultiLineParser_instance_ready (Compile : string → option Regexp)
    (ParseDuration : string → option Z) (logger' : option Logger) (config : option Config)
    (next' : option Handler) (ml : multiLineParser) :
  (∀ src r, Compile src = Some r → regexp_ok r) →
  NewMultiLineParser Compile ParseDuration logger' config next' = Ret (inr ml) →
  wired ml ∧ parser_ok ml ∧ registry_ok ml ∧
  Forall (λ t, lines t = 0 ∧ entry t = "") (tracked ml) ∧
  (∀ force now w, flush force now ml w = Ret (ml, w, None)) ∧
  next ml = default nop next' ∧
  flusher ml = (if maxWait ml >? 0
                then Some {| interval := maxWait ml ÷ 2; stopped := false |}
                else None) ∧
  (modeHandler ml = GroupMode ∨ modeHandler ml = UnorderedGroupMode →
   0 < maxWait ml ÷ 2) ∧
  logger ml = (λ l, With l "component" "multiline") <$> logger' ∧
  (logger ml = None → is_Some next' ∧ 0 < maxWait ml).
Proof.
  intros Hc Hnew.
  destruct (NewMultiLineParser_inr _ _ _ _ _ _ Hnew)
    as (cfg & h & rq & -> & He & Hf & Hn & Hd & Hmode & Hh & Hsep & Hls & Hl & Hnext
        & Hfl & Hq & Hrq & Hlog & Hnl & Hoff).
  pose proof (mode_switch_Some _ _ _ _ Hmode) as (_ & Hreq & Hmt).
  assert (Hwired : wired ml).
  { unfold wired. rewrite Hh, Hl. destruct (multitrack ml) eqn:Hm.
    - by rewrite (proj1 Hmt eq_refl).
    - destruct h; try (split; [done | by eexists]).
      by pose proof (proj2 Hmt eq_refl). }
  split; [exact Hwired|]. split.
  { split; [by apply (Hc _ _ He)|]. split; intros e Hsome.
    - apply (Hc _ _ (Hf e Hsome)).
    - apply (Hc _ _ (Hn e Hsome)). }
  assert (Hreg : registry_ok ml).
  { unfold registry_ok. rewrite Hl, Hls. by destruct (multitrack ml); [constructor | eexists]. }
  split; [exact Hreg|]. split.
  { unfold tracked. rewrite Hl, Hls. destruct (multitrack ml); repeat constructor. }
  split.
  { intros force now w. unfold flush. rewrite Hl, Hls.
    destruct (multitrack ml) eqn:Hm; simpl.
    - f_equal. f_equal. f_equal. destruct ml. simpl in *. by subst.
    - reflexivity. }
  split; [exact Hnext|]. split; [exact Hfl|]. split.
  { intros Hgroup. apply Hq. apply Z.gtb_lt. apply Hrq, Hreq.
    rewrite Hh in Hgroup. clear -Hgroup Hmode.
    unfold mode_switch in Hmode.
    destruct (String.eqb_spec (Mode cfg) "newline");
      [injection Hmode as <- _ _; by destruct Hgroup|].
    destruct (String.eqb_spec (Mode cfg) "group"); [by left|].
    destruct (String.eqb_spec (Mode cfg) "unordered_group"); [by right|].
    destruct (String.eqb_spec (Mode cfg) "continue"); [|done].
    injection Hmode as <- _ _. by destruct Hgroup. }
  split; [exact Hlog|].
  intros Hnone.
  assert (Hno : logger' = None).
  { rewrite Hlog in Hnone. by destruct logger'. }
  split.
  - destruct next' as [n|]; [by eexists|].
    destruct (Hnl eq_refl) as [l Hsome]. congruence.
  - destruct (Z.le_gt_cases (maxWait ml) 0) as [Hle|Hgt]; [|lia].
    destruct (Hoff Hle) as [l Hsome]. congruence.
Qed.

Lemma byte_in_length (s : string) (i lo hi : nat) :
  Samples.byte_in s i lo hi = true → (i < String.length s)%nat.
Proof.
  unfold Samples.byte_in. revert i. induction s as [|a s IH]; intros [|i]; simpl; try done.
  - lia.
  - intros H. apply IH in H. lia.
Qed.

Lemma rune_size_le (s : string) : Samples.rune_size s <= len s.
Proof.
  destruct s as [|a s]; [done|].
  assert (H1 : 1 <= len (String a s)) by (unfold len; simpl; lia).
  unfold Samples.rune_size.
  repeat match goal with
         | |- context [if ?b then _ else _] =>
             let E := fresh "E" in destruct b eqn:E; try exact H1
         end.
  - apply byte_in_length in E1. unfold len. lia.
  - apply andb_true_iff in E2 as [_ E2]. apply byte_in_length in E2. unfold len. lia.
  - apply andb_true_iff in E3 as [_ E3]. apply byte_in_length in E3. unfold len. lia.
Qed.

Lemma not_indented_ok : regexp_ok Samples.not_indented.
Proof.
  intros [|a s]; unfold matches_ok; [constructor|].
  change (FindAllSubmatchIndex Samples.not_indented (String a s))
    with (if (Ascii.nat_of_ascii a =? 32)%nat then []
          else [[0; Samples.rune_size (String a s)]]).
  destruct (Ascii.nat_of_ascii a =? 32)%nat; repeat constructor.
  - by exists 1%nat.
  - unfold len. simpl. lia.
  - apply rune_size_le.
Qed.

Lemma continued_ok : regexp_ok Samples.continued.
Proof.
  intros s. unfold matches_ok. simpl.
  destruct (Samples.ends_with_backslash s); repeat constructor; try lia.
  - by exists 2%nat.
  - unfold len. lia.
  - unfold len. lia.
Qed.

Lemma sample_Compile_ok (src : string) (r : Regexp) :
  Samples.Compile src = Some r → regexp_ok r.
Proof.
  unfold Samples.Compile.
  destruct (String.eqb src "^(\S+)"); [intros [= <-]; apply first_word_ok|].
  destruct (String.eqb src "^[^ ]"); [intros [= <-]; apply not_indented_ok|].
  destruct (String.eqb src Samples.continued_source); [intros [= <-]; apply continued_ok|].
  done.
Qed.

Lemma NewMultiLineParser_instance_ready_witness :
  ∃ ml,
    (∀ src r, Samples.Compile src = Some r → regexp_ok r) ∧
    NewMultiLineParser Samples.Compile Samples.ParseDuration (Some Samples.util_Logger)
      (Some (Samples.config "unordered_group" "^(\S+)" "" "10ms")) None = Ret (inr ml) ∧
    wired ml ∧ parser_ok ml ∧ registry_ok ml ∧
    Forall (λ t, lines t = 0 ∧ entry t = "") (tracked ml) ∧
    (∀ force now w, flush force now ml w = Ret (ml, w, None)) ∧
    next ml = default nop None ∧
    flusher ml = (if maxWait ml >? 0
                  then Some {| interval := maxWait ml ÷ 2; stopped := false |}
                  else None) ∧
    (modeHandler ml = GroupMode ∨ modeHandler ml = UnorderedGroupMode →
     0 < maxWait ml ÷ 2) ∧
    logger ml = (λ l, With l "component" "multiline") <$> Some Samples.util_Logger ∧
    (logger ml = None → is_Some (@None Handler) ∧ 0 < maxWait ml).
Proof.
  eexists. split; [exact sample_Compile_ok|]. split; [reflexivity|].
  apply (NewMultiLineParser_instance_ready Samples.Compile Samples.ParseDuration
           (Some Samples.util_Logger)
           (Some (Samples.config "unordered_group" "^(\S+)" "" "10ms")) None _
           sample_Compile_ok eq_refl).
Defined.

Example construct_without_logger :
  ∃ ml,
    NewMultiLineParser Samples.Compile Samples.ParseDuration None
      (Some (Samples.config "unordered_group" "^(\S+)" "" "10ms")) (Some Samples.failing)
    = Ret (inr ml) ∧
    logger ml = None ∧
    run ml [] [OpHandle (Samples.line 1 "G:1 event"); OpTick 20000000]
    = Panic "nil pointer dereference".
Proof. eexists. split; [reflexivity|]. split; reflexivity. Qed.

(** ** The registry of the unordered group mode *)

Lemma find_key_Some (k : string) (ts : list multilineEntry) (i : nat) :
  find_key k ts = Some i → ∃ t, ts !! i = Some t ∧ key t = k.
Proof.
  revert i. induction ts as [|t ts IH]; intros i; simpl; [done|].
  destruct (String.eqb_spec (key t) k) as [Hk|Hk].
  - intros [= <-]. by exists t.
  - destruct (find_key k ts) as [j|]; simpl; [|done].
    intros [= <-]. by apply IH.
Qed.

Lemma find_key_None (k : string) (ts : list multilineEntry) :
  find_key k ts = None → k ∉ key <$> ts.
Proof.
  induction ts as [|t ts IH]; simpl; [intros _; apply not_elem_of_nil|].
  destruct (String.eqb_spec (key t) k) as [Hk|Hk]; [done|].
  destruct (find_key k ts) as [j|]; simpl; [done|]. intros _.
  apply not_elem_of_cons. split; [done | by apply IH].
Qed.

Lemma total_lines_cons (t : multilineEntry) (l : list multilineEntry) :
  total_lines (t :: l) = lines t + total_lines l.
Proof. reflexivity. Qed.

Lemma total_lines_app (l1 l2 : list multilineEntry) :
  total_lines (l1 ++ l2) = total_lines l1 + total_lines l2.
Proof.
  induction l1 as [|t l1 IH]; [done|].
  rewrite <- app_comm_cons, !total_lines_cons, IH. lia.
Qed.

Lemma total_lines_insert (l : list multilineEntry) (p : nat) (old x : multilineEntry) :
  l !! p = Some old →
  total_lines (<[p := x]> l) = total_lines l - lines old + lines x.
Proof.
  revert p. induction l as [|t l IH]; intros [|p]; try done.
  - intros [= ->]. change (<[0%nat:=x]> (old :: l)) with (x :: l).
    rewrite !total_lines_cons. lia.
  - intros H. change (<[S p:=x]> (t :: l)) with (t :: <[p:=x]> l).
    rewrite !total_lines_cons, (IH p H). lia.
Qed.

Lemma total_lines_bound (l : list multilineEntry) (p : nat) (t : multilineEntry) :
  Forall (λ t, 0 <= lines t) l → l !! p = Some t → lines t <= total_lines l.
Proof.
  intros Hall.
  assert (Hpos : ∀ l', Forall (λ t, 0 <= lines t) l' → 0 <= total_lines l').
  { induction 1 as [|y l' Hy _ IH']; [done|]. rewrite total_lines_cons. lia. }
  revert p. induction Hall as [|x l Hx Hall IH]; intros [|p]; try done.
  - intros [= ->]. rewrite total_lines_cons. specialize (Hpos l Hall). lia.
  - intros H. rewrite total_lines_cons. specialize (IH p H). lia.
Qed.

Lemma keys_insert (l : list multilineEntry) (p : nat) (old x : multilineEntry) :
  l !! p = Some old → key x = key old → key <$> <[p := x]> l = key <$> l.
Proof.
  intros H Hk. rewrite list_fmap_insert, Hk. apply list_insert_id.
  by rewrite list_lookup_fmap, H.
Qed.

Lemma wrap64_small (z : Z) : - 2^63 <= z < 2^63 → wrap64 z = z.
Proof. intros H. unfold wrap64. rewrite Z.mod_small; lia. Qed.

(** What one line does to the list of the unordered group mode: the record
    of the key of the line, added at the end when the key is new, gets the
    line; its key stays. *)
Lemma handleUnorderedGroupMode_registry (c : multiLineParser) (w : list Delivery)
    (l : gmap string string) (t : Z) (e : string) (now : Z) :
  parser_ok c →
  ∃ c' l1 p ml ml' k,
    handleUnorderedGroupMode c w l t e now = Ret (c', w, None) ∧ same_config c c' ∧
    (∃ i, disjoint (expressionRegex c) e = Ret (k, i)) ∧
    (l1 = multilines c ∨ (l1 = multilines c ++ [newMultiLineEntry k] ∧
                          k ∉ key <$> multilines c)) ∧
    l1 !! p = Some ml ∧ key ml = k ∧ key ml' = k ∧
    lines ml' = (if lines ml >? 0 then wrap64 (lines ml + 1) else 1) ∧
    multilines c' = <[p := ml']> l1.
Proof.
  intros (Hexpr & Hfirst & Hnext). unfold handleUnorderedGroupMode.
  destruct (disjoint_returns (expressionRegex c) e (Hexpr e)) as [[k i] Hdis].
  rewrite Hdis. simpl.
  assert (Hfetch : ∃ c1 p ml, fetchLine c k = (c1, p) ∧ same_config c c1 ∧
            (multilines c1 = multilines c ∨
             (multilines c1 = multilines c ++ [newMultiLineEntry k] ∧
              k ∉ key <$> multilines c)) ∧
            multilines c1 !! p = Some ml ∧ key ml = k).
  { unfold fetchLine. destruct (find_key k (multilines c)) as [j|] eqn:Hfind.
    - destruct (find_key_Some _ _ _ Hfind) as (ml & Hml & Hk).
      exists c, j, ml. split; [done|]. split; [apply same_config_refl|]. by split; [left|].
    - exists (set_multilines c (multilines c ++ [newMultiLineEntry k])),
        (length (multilines c)), (newMultiLineEntry k).
      split; [done|]. split; [by repeat split|]. split.
      + right. split; [done | by apply find_key_None].
      + split; [|done]. simpl. by rewrite lookup_app_r, Nat.sub_diag. }
  destruct Hfetch as (c1 & p & ml & -> & Hsame & Hlist & Hml & Hk).
  rewrite Hml. simpl.
  assert (Hf : firstLineRegex c1 = firstLineRegex c) by (by destruct Hsame as (?&?&?&?)).
  assert (Hn : nextLineRegex c1 = nextLineRegex c) by (by destruct Hsame as (?&?&?&?&?)).
  destruct (lines ml >? 0) eqn:Hlines.
  - assert (Hline : returns (match nextLineRegex c1 with
                             | Some _ => selection (nextLineRegex c1) e
                             | None => Ret i
                             end)).
    { destruct (nextLineRegex c1) eqn:Hr; [|by eexists].
      apply selection_returns. intros r' [= <-]. apply Hnext. by rewrite <- Hn. }
    destruct Hline as [x ->]. simpl.
    eexists _, (multilines c1), p, ml, (append ml l x (separator c1)), k.
    split; [reflexivity|].
    split; [same_config|]. split; [by exists i|]. split; [exact Hlist|]. split; [exact Hml|].
    split; [exact Hk|]. split; [exact Hk|]. split; [|reflexivity].
    simpl. by rewrite Hlines.
  - destruct (selection_returns (firstLineRegex c1) e) as [x ->].
    { intros r' Hr'. apply Hfirst. by rewrite <- Hf. }
    simpl. eexists _, (multilines c1), p, ml, (set_key (init ml l t x now) k), k.
    split; [reflexivity|].
    split; [same_config|]. split; [by exists i|]. split; [exact Hlist|]. split; [exact Hml|].
    split; [exact Hk|]. split; [reflexivity|]. split; [|reflexivity].
    simpl. by rewrite Hlines.
Qed.

Lemma NoDup_keys_filter (f : multilineEntry → bool) (l : list multilineEntry) :
  NoDup (key <$> l) → NoDup (key <$> List.filter f l).
Proof.
  induction l as [|t l IH]; simpl; [done|].
  intros [Hnotin Hnodup]%NoDup_cons. destruct (f t); [|by apply IH].
  rewrite fmap_cons. apply NoDup_cons. split; [|by apply IH].
  intros (y & Hy & Hin)%list_elem_of_fmap. apply Hnotin.
  apply list_elem_of_fmap. exists y. split; [done|].
  apply list_elem_of_In, List.filter_In in Hin as [Hin _]. by apply list_elem_of_In.
Qed.

Lemma flush_multitrack (force : bool) (now : Z) (c : multiLineParser) (w : list Delivery) :
  multitrack c = true →
  ∃ f w' e, flush force now c w = Ret (set_multilines c (List.filter f (multilines c)), w', e).
Proof.
  intros Hmt. unfold flush. rewrite Hmt, sweep_spec. simpl. by eexists _, _, _.
Qed.

Lemma step_unordered (P : list multilineEntry → Prop) (c : multiLineParser)
    (w : list Delivery) (op : Op) :
  (∀ f l, P l → P (List.filter f l)) →
  (∀ l l', key <$> l' = key <$> l → P l → P l') →
  (∀ l k, k ∉ key <$> l → P l → P (l ++ [newMultiLineEntry k])) →
  unordered c → P (multilines c) →
  (∃ c' w', step c w op = Ret (c', w') ∧ unordered c' ∧ P (multilines c') ∧
            logger c' = logger c) ∨
  (logger c = None ∧ step c w op = Panic "nil pointer dereference").
Proof.
  intros Hfilter Hkeys Hnew (Hmode & Hmt & Hok) HP.
  destruct op as [l|now|now|now]; simpl.
  - left. unfold Handle. rewrite Hmode.
    destruct (handleUnorderedGroupMode_registry c w (default ∅ (l_labels l)) (l_time l)
                (l_text l) (l_now l) Hok)
      as (c' & l1 & p & ml & ml' & k & -> & Hsame & _ & Hl1 & Hp & Hk & Hk' & _ & Hc').
    simpl. exists c', w. split; [done|]. split.
    { pose proof (same_config_parser_ok c c' Hsame Hok) as Hok'.
      destruct Hsame as (Hm & _ & _ & _ & _ & _ & Hmt' & _).
      split; [by rewrite Hm|]. split; [by rewrite Hmt' | done]. }
    split; [|by destruct Hsame as (?&?&?&?&?&?&?&?&?&?)].
    rewrite Hc'. apply (Hkeys l1).
    { apply keys_insert with ml; [done | congruence]. }
    destruct Hl1 as [->|[-> Hfresh]]; [done | by apply Hnew].
  - left. unfold Flush. destruct (flush_multitrack true now c w Hmt) as (f & w' & e & ->).
    simpl. eexists _, _. split; [reflexivity|]. split; [done|].
    split; [by apply Hfilter | done].
  - unfold tick. destruct (flush_multitrack false now c w Hmt) as (f & w' & e & ->).
    simpl. destruct e as [e|]; simpl.
    + destruct (logger c) as [lg|] eqn:Hlog; simpl.
      * left. eexists _, _. split; [reflexivity|]. split; [done|].
        split; [by apply Hfilter | done].
      * by right.
    + left. eexists _, _. split; [reflexivity|]. split; [done|].
      split; [by apply Hfilter | done].
  - left. unfold Stop. fold (halted c).
    assert (Hh : unordered (halted c) ∧ multilines (halted c) = multilines c ∧
                 logger (halted c) = logger c).
    { unfold halted. by destruct (flusher c). }
    destruct Hh as ((Hmode' & Hmt' & Hok') & Hls & Hlg).
    destruct (flush_multitrack true now (halted c) w Hmt') as (f & w' & e & ->).
    simpl. eexists _, _. split; [reflexivity|]. split; [done|].
    split; [rewrite Hls; by apply Hfilter | done].
Qed.

(** A sequence of calls on a parser of the unordered group mode runs to its
    end, with the keys of the list still pairwise different, or stops at a
    tick whose flush failed on a parser that has no logger. *)
Lemma run_unordered (c : multiLineParser) (w : list Delivery) (ops : list Op) :
  unordered c → NoDup (key <$> multilines c) →
  (∃ c' w', run c w ops = Ret (c', w') ∧ NoDup (key <$> multilines c')) ∨
  (logger c = None ∧ run c w ops = Panic "nil pointer dereference").
Proof.
  revert c w. induction ops as [|op ops IH]; intros c w Hu Hnodup; simpl.
  - left. by eexists _, _.
  - destruct (step_unordered (λ l, NoDup (key <$> l)) c w op)
      as [(c1 & w1 & -> & Hu1 & H1 & Hlog)|[Hlog ->]]; try done.
    + intros f l. apply NoDup_keys_filter.
    + intros l l' ->. done.
    + intros l k Hk Hl. rewrite fmap_app. apply NoDup_app. split; [done|].
      split; [|apply NoDup_singleton].
      intros x Hx [->|[]%elem_of_nil]%elem_of_cons. done.
    + simpl. destruct (IH c1 w1 Hu1 H1) as [Hret|[Hnone Hpanic]]; [by left|].
      right. split; [congruence | done].
    + by right.
Qed.

(** X7. In the unordered group mode the list holds at most one record per
    key: if the keys of the tracked records are pairwise different, they
    still are after any sequence of [Handle], [Flush], ticks and [Stop].
    On a parser that has a logger every such sequence runs to its end; on a
    parser without one the only other outcome is the panic of the tick
    whose flush failed. *)
Theorem unordered_keys_distinct (c : multiLineParser) (w : list Delivery) (ops : list Op) :
  modeHandler c = UnorderedGroupMode → multitrack c = true → parser_ok c →
  NoDup (key <$> multilines c) →
  (is_Some (logger c) →
   ∃ c' w', run c w ops = Ret (c', w') ∧ NoDup (key <$> multilines c')) ∧
  (∀ c' w', run c w ops = Ret (c', w') → NoDup (key <$> multilines c')) ∧
  (∀ msg, run c w ops = Panic msg → logger c = None ∧ msg = "nil pointer dereference").
Proof.
  intros Hmode Hmt Hok Hnodup. assert (Hu : unordered c) by done.
  destruct (run_unordered c w ops Hu Hnodup) as [(c1 & w1 & Hrun & H1)|[Hlog Hrun]].
  - split; [intros _; by exists c1, w1|]. split.
    + intros c' w' Hrun'. rewrite Hrun in Hrun'. by injection Hrun' as <- <-.
    + intros msg Hp. rewrite Hrun in Hp. done.
  - split; [intros [l Hl]; congruence|]. split.
    + intros c' w' Hrun'. rewrite Hrun in Hrun'. done.
    + intros msg Hp. rewrite Hrun in Hp. by injection Hp as <-.
Qed.

Lemma unordered_keys_distinct_witness :
  let c := Samples.holding [Samples.record "G:1" "G:1 event" 1 0 1;
                            Samples.record "G:2" "G:2 event" 1 0 2] 10 nop in
  let ops := [OpHandle (Samples.line 3 "G:1 one"); OpHandle (Samples.line 4 "G:3 event");
              OpTick 15; OpHandle (Samples.line 16 "G:1 event")] in
  modeHandler c = UnorderedGroupMode ∧ multitrack c = true ∧ parser_ok c ∧
  NoDup (key <$> multilines c) ∧
  (is_Some (logger c) →
   ∃ c' w', run c [] ops = Ret (c', w') ∧ NoDup (key <$> multilines c')) ∧
  (∀ c' w', run c [] ops = Ret (c', w') → NoDup (key <$> multilines c')) ∧
  (∀ msg, run c [] ops = Panic msg → logger c = None ∧ msg = "nil pointer dereference").
Proof.
  intros c ops.
  assert (Hok : parser_ok c) by (split; [apply first_word_ok | by split]).
  assert (Hnd : NoDup (key <$> multilines c)).
  { simpl. apply NoDup_cons. split; [|apply NoDup_singleton].
    by intros [=]%list_elem_of_singleton. }
  do 2 (split; [reflexivity|]). split; [exact Hok|]. split; [exact Hnd|].
  apply (unordered_keys_distinct c [] ops eq_refl eq_refl Hok Hnd).
Defined.

Example unordered_keys_after_run :
  let c := Samples.holding [Samples.record "G:1" "G:1 event" 1 0 1;
                            Samples.record "G:2" "G:2 event" 1 0 2] 10 nop in
  let ops := [OpHandle (Samples.line 3 "G:1 one"); OpHandle (Samples.line 4 "G:3 event");
              OpTick 13; OpHandle (Samples.line 16 "G:1 event")] in
  is_Some (logger c) ∧
  (r ← run c [] ops; Ret (key <$> multilines r.1)) = Ret ["G:3"; "G:1"].
Proof. split; [by eexists | reflexivity]. Qed.

(** X8. In the unordered group mode every line handled is counted in exactly
    one tracked record: as long as the counters stay below the range of a
    Go [int], handling [n] lines raises the total of the line counts of the
    list by [n], and no counter becomes negative. *)
Theorem unordered_counts_lines (c : multiLineParser) (w : list Delivery) (ls : list Line) :
  modeHandler c = UnorderedGroupMode → parser_ok c →
  Forall (λ t, 0 <= lines t) (multilines c) →
  total_lines (multilines c) + Z.of_nat (length ls) < 2^63 →
  ∃ c' es,
    HandleAll c w ls = Ret (c', w, es) ∧
    total_lines (multilines c') = total_lines (multilines c) + Z.of_nat (length ls) ∧
    Forall (λ t, 0 <= lines t) (multilines c').
Proof.
  revert c. induction ls as [|l ls IH]; intros c Hmode Hok Hpos Hbound.
  - simpl. exists c, []. split; [done|]. split; [lia | done].
  - simpl HandleAll. unfold Handle. rewrite Hmode.
    destruct (handleUnorderedGroupMode_registry c w (default ∅ (l_labels l)) (l_time l)
                (l_text l) (l_now l) Hok)
      as (c1 & l1 & p & ml & ml' & k & -> & Hsame & _ & Hl1 & Hp & Hk & Hk' & Hlines & Hc1).
    simpl.
    assert (Hpos1 : Forall (λ t, 0 <= lines t) l1).
    { destruct Hl1 as [->|[-> _]]; [done|]. apply Forall_app. split; [done|].
      by repeat constructor. }
    assert (Htot1 : total_lines l1 = total_lines (multilines c)).
    { destruct Hl1 as [->|[-> _]]; [done|]. rewrite total_lines_app.
      change (total_lines [newMultiLineEntry k]) with 0. lia. }
    pose proof (total_lines_bound l1 p ml Hpos1 Hp) as Hle.
    assert (Hml : 0 <= lines ml) by (rewrite Forall_forall in Hpos1;
                                     apply Hpos1, list_elem_of_lookup; eauto).
    assert (Hnew : lines ml' = lines ml + 1).
    { rewrite Hlines. destruct (Z.gtb_spec (lines ml) 0).
      - apply wrap64_small. simpl length in Hbound. lia.
      - lia. }
    assert (Hmode1 : modeHandler c1 = UnorderedGroupMode).
    { destruct Hsame as [-> _]. done. }
    destruct (IH c1 Hmode1 (same_config_parser_ok c c1 Hsame Hok)) as (c2 & es & -> & Htot & Hpos2).
    + rewrite Hc1. apply Forall_insert; [done | lia].
    + rewrite Hc1, (total_lines_insert l1 p ml ml' Hp). simpl length in Hbound. lia.
    + simpl. exists c2, (None :: es). split; [done|]. split; [|done].
      rewrite Htot, Hc1, (total_lines_insert l1 p ml ml' Hp). simpl length. lia.
Qed.

Lemma unordered_counts_lines_witness :
  let c := Samples.parser UnorderedGroupMode Samples.first_word "" 10 nop in
  let ls := Samples.line 3 <$> ["G:1 event"; "G:2 event"; "G:1 one"] in
  modeHandler c = UnorderedGroupMode ∧ parser_ok c ∧
  Forall (λ t, 0 <= lines t) (multilines c) ∧
  total_lines (multilines c) + Z.of_nat (length ls) < 2^63 ∧
  ∃ c' es,
    HandleAll c [] ls = Ret (c', [], es) ∧
    total_lines (multilines c') = total_lines (multilines c) + Z.of_nat (length ls) ∧
    Forall (λ t, 0 <= lines t) (multilines c').
Proof.
  intros c ls.
  assert (Hok : parser_ok c) by apply sample_parser_ok.
  assert (Hpos : Forall (λ t, 0 <= lines t) (multilines c)) by constructor.
  assert (Hb : total_lines (multilines c) + Z.of_nat (length ls) < 2^63) by reflexivity.
  split; [reflexivity|]. split; [exact Hok|]. split; [exact Hpos|]. split; [exact Hb|].
  apply (unordered_counts_lines c [] ls eq_refl Hok Hpos Hb).
Defined.

(** ** The newline mode loses no text *)

Lemma join_empty_sep (a b : string) : join a "" b = a +:+ b.
Proof. unfold join. destruct (0 <? len a); [by rewrite append_empty_r | done]. Qed.

Lemma entries_snoc (w : list Delivery) (t : multilineEntry) :
  Join (d_entry <$> w ++ [delivery_of t]) = Join (d_entry <$> w) +:+ entry t.
Proof.
  rewrite fmap_app. change (d_entry <$> [delivery_of t]) with [entry t]. apply Join_snoc.
Qed.

Lemma handleNewLineMode_text (c : multiLineParser) (w : list Delivery)
    (l : gmap string string) (t : Z) (e : string) (now : Z) (ml : multilineEntry) :
  multiline c = Some ml → separator c = "" →
  firstLineRegex c = None → nextLineRegex c = None →
  clean ml → lines ml + 1 < 2^63 →
  ∃ w' err ml',
    handleNewLineMode c w l t e now = Ret (set_multiline c ml', w', err) ∧
    clean ml' ∧ 1 <= lines ml' <= lines ml + 1 ∧
    Join (d_entry <$> w') +:+ entry ml' = Join (d_entry <$> w) +:+ entry ml +:+ e.
Proof.
  intros Hml Hsep Hfirst Hnext [Hpos Hempty] Hbound.
  unfold handleNewLineMode. rewrite Hml, Hsep, Hfirst, Hnext. simpl.
  destruct (Match (expressionRegex c) e); simpl.
  - destruct (Z.gtb_spec (lines ml) 0) as [Hgt|Hle]; simpl.
    + eexists _, _, _. split; [reflexivity|]. split; [by split|]. simpl.
      split; [lia|]. by rewrite entries_snoc, append_assoc.
    + eexists _, _, _. split; [reflexivity|]. split; [by split|]. simpl.
      split; [lia|]. by rewrite Hempty by lia.
  - eexists _, _, _. split; [reflexivity|]. unfold clean. simpl.
    rewrite wrap64_small by lia. split; [split; [lia | intros; lia]|].
    split; [lia|]. by rewrite join_empty_sep.
Qed.

(** X9. In newline mode without first-line and next-line expressions and
    with an empty separator no text is lost, repeated or reordered: after
    any sequence of lines, the texts delivered so far followed by the text
    in the slot are the texts delivered before, the text that was in the
    slot and the lines handled, in this order; a final forced flush brings
    the rest downstream. *)
Theorem newline_mode_keeps_text (c : multiLineParser) (w : list Delivery) (ls : list Line)
    (ml : multilineEntry) :
  modeHandler c = NewLineMode → multitrack c = false → multiline c = Some ml →
  separator c = "" → firstLineRegex c = None → nextLineRegex c = None →
  clean ml → lines ml + Z.of_nat (length ls) < 2^63 →
  ∃ c' w' es ml',
    HandleAll c w ls = Ret (c', w', es) ∧ multiline c' = Some ml' ∧
    Join (d_entry <$> w') +:+ entry ml'
    = Join (d_entry <$> w) +:+ entry ml +:+ Join (l_text <$> ls) ∧
    ∀ now, ∃ c'' w'' e,
      Flush now c' w' = Ret (c'', w'', e) ∧
      Join (d_entry <$> w'')
      = Join (d_entry <$> w) +:+ entry ml +:+ Join (l_text <$> ls).
Proof.
  revert c w ml. induction ls as [|l ls IH];
    intros c w ml Hmode Hmt Hml Hsep Hfirst Hnext Hclean Hbound.
  - simpl. exists c, w, [], ml. split; [done|]. split; [done|].
    change (Join []) with "". rewrite append_empty_r. split; [done|].
    intros now. unfold Flush, flush. rewrite Hmt, Hml. simpl.
    destruct Hclean as [Hpos Hempty].
    destruct (Z.gtb_spec (lines ml) 0) as [Hgt|Hle]; simpl.
    + eexists _, _, _. split; [reflexivity|]. apply entries_snoc.
    + eexists _, _, _. split; [reflexivity|]. rewrite Hempty by lia.
      by rewrite append_empty_r.
  - simpl HandleAll. unfold Handle. rewrite Hmode. simpl length in Hbound.
    destruct (handleNewLineMode_text c w (default ∅ (l_labels l)) (l_time l) (l_text l)
                (l_now l) ml Hml Hsep Hfirst Hnext Hclean)
      as (w1 & err & ml1 & -> & Hclean1 & Hl1 & Htext1); [destruct Hclean; lia|].
    simpl.
    destruct (IH (set_multiline c ml1) w1 ml1) as (c2 & w2 & es & ml2 & -> & Hml2 & Htext2 & Hflush);
      try done; [lia|].
    simpl. exists c2, w2, (err :: es), ml2. split; [done|]. split; [done|].
    assert (Hall : Join (d_entry <$> w1) +:+ entry ml1 +:+ Join (l_text <$> ls)
                   = Join (d_entry <$> w) +:+ entry ml +:+ Join (l_text <$> l :: ls)).
    { rewrite fmap_cons, Join_cons, <- !append_assoc, Htext1. by rewrite !append_assoc. }
    split; [by rewrite Htext2|].
    intros now. destruct (Hflush now) as (c3 & w3 & e & Hf & Htext3).
    exists c3, w3, e. split; [done|]. by rewrite Htext3.
Qed.

Lemma newline_mode_keeps_text_witness :
  let c := Samples.parser NewLineMode Samples.not_indented "" 10 nop in
  let ls := Samples.line 3 <$> [" lost start"; "line 1"; " subline"; "line 2"] in
  let ml := newMultiLineEntry "" in
  modeHandler c = NewLineMode ∧ multitrack c = false ∧ multiline c = Some ml ∧
  separator c = "" ∧ firstLineRegex c = None ∧ nextLineRegex c = None ∧
  clean ml ∧ lines ml + Z.of_nat (length ls) < 2^63 ∧
  ∃ c' w' es ml',
    HandleAll c [] ls = Ret (c', w', es) ∧ multiline c' = Some ml' ∧
    Join (d_entry <$> w') +:+ entry ml'
    = Join (d_entry <$> []) +:+ entry ml +:+ Join (l_text <$> ls) ∧
    ∀ now, ∃ c'' w'' e,
      Flush now c' w' = Ret (c'', w'', e) ∧
      Join (d_entry <$> w'')
      = Join (d_entry <$> []) +:+ entry ml +:+ Join (l_text <$> ls).
Proof.
  intros c ls ml.
  assert (Hclean : clean ml) by (by split).
  assert (Hb : lines ml + Z.of_nat (length ls) < 2^63) by reflexivity.
  do 6 (split; [reflexivity|]). split; [exact Hclean|]. split; [exact Hb|].
  apply (newline_mode_keeps_text c [] ls ml eq_refl eq_refl eq_refl eq_refl eq_refl eq_refl
           Hclean Hb).
Defined.

(** ** The simplest stage *)

Section SimplestProperties.

Variable V : Type.
Variable of_string : string → V.
Variable Sprint : V → string.

(** X10. [Process] of the simplest stage rewrites the value under the
    configured key and nothing else: the keys of the extracted map are the
    same before and after (a missing key is not added, the map is then left
    as it is), the values under all other keys are untouched, and the value
    under the configured key becomes the text of the old value with the
    prefix put in front. *)
Theorem Process_rewrites_one_key (m : Simplest.simplestStage) (src : gmap string V) :
  dom (Simplest.Process V of_string Sprint m src) = dom src ∧
  (∀ k, k ≠ Simplest.source m →
        Simplest.Process V of_string Sprint m src !! k = src !! k) ∧
  Simplest.Process V of_string Sprint m src !! Simplest.source m
  = (λ v, of_string ("simplest->" +:+ Sprint v)) <$> src !! Simplest.source m ∧
  (src !! Simplest.source m = None → Simplest.Process V of_string Sprint m src = src).
Proof.
  unfold Simplest.Process. destruct (src !! Simplest.source m) as [v|] eqn:Hv.
  - split; [|split; [|split]].
    + rewrite dom_insert_L. apply subseteq_union_1_L, singleton_subseteq_l.
      by apply elem_of_dom_2 in Hv.
    + intros k Hk. by rewrite lookup_insert_ne.
    + by rewrite lookup_insert_eq.
    + done.
  - by rewrite Hv.
Qed.

(** X11. Running the stage twice nests the prefix, provided a string stored
    in the map prints as itself. *)
Theorem Process_twice (m : Simplest.simplestStage) (src : gmap string V) (v : V) :
  (∀ s, Sprint (of_string s) = s) →
  src !! Simplest.source m = Some v →
  Simplest.Process V of_string Sprint m (Simplest.Process V of_string Sprint m src)
  = <[Simplest.source m := of_string ("simplest->" +:+ "simplest->" +:+ Sprint v)]> src.
Proof.
  intros Hprint Hv. unfold Simplest.Process. rewrite Hv, lookup_insert_eq, Hprint.
  by rewrite insert_insert_eq.
Qed.

End SimplestProperties.

Lemma Process_twice_witness :
  let m := {| Simplest.source := "msg" |} in
  let src : gmap string string := {["msg" := "hello"; "level" := "info"]} in
  (∀ s : string, id (id s) = s) ∧
  src !! Simplest.source m = Some "hello" ∧
  Simplest.Process string id id m (Simplest.Process string id id m src)
  = <[Simplest.source m := id ("simplest->" +:+ "simplest->" +:+ id "hello")]> src.
Proof.
  intros m src.
  assert (Hp : ∀ s : string, id (id s) = s) by done.
  assert (Hv : src !! Simplest.source m = Some "hello") by apply lookup_insert_eq.
  split; [exact Hp|]. split; [exact Hv|].
  apply (Process_twice string id id m src "hello" Hp Hv).
Defined.

(** ** The order of the records of the unordered group mode *)

(** X12. In the unordered group mode the records are listed, and therefore
    flushed, in the order in which their keys appeared first: after a
    sequence of lines the keys of the list are the keys it had, followed by
    the new keys of the lines in the order of their first line. *)
Theorem unordered_keys_in_arrival_order (c : multiLineParser) (w : list Delivery)
    (ls : list Line) :
  modeHandler c = UnorderedGroupMode → parser_ok c →
  ∃ c' es ks,
    HandleAll c w ls = Ret (c', w, es) ∧
    Forall2 (λ l k, ∃ i, disjoint (expressionRegex c) (l_text l) = Ret (k, i)) ls ks ∧
    key <$> multilines c' = foldl add_key (key <$> multilines c) ks.
Proof.
  revert c. induction ls as [|l ls IH]; intros c Hmode Hok.
  - simpl. exists c, [], []. split; [done|]. split; [constructor | done].
  - simpl HandleAll. unfold Handle. rewrite Hmode.
    destruct (handleUnorderedGroupMode_registry c w (default ∅ (l_labels l)) (l_time l)
                (l_text l) (l_now l) Hok)
      as (c1 & l1 & p & ml & ml' & k & -> & Hsame & Hdis & Hl1 & Hp & Hk & Hk' & _ & Hc1).
    simpl.
    assert (Hmode1 : modeHandler c1 = UnorderedGroupMode).
    { destruct Hsame as [-> _]. done. }
    assert (Hexpr : expressionRegex c1 = expressionRegex c).
    { by destruct Hsame as (_ & -> & _). }
    destruct (IH c1 Hmode1 (same_config_parser_ok c c1 Hsame Hok))
      as (c2 & es & ks & -> & Hks & Hkeys).
    simpl. exists c2, (None :: es), (k :: ks). split; [done|]. split.
    { constructor; [done|]. by rewrite <- Hexpr. }
    rewrite Hkeys, Hc1, (keys_insert l1 p ml ml' Hp) by congruence. simpl. f_equal.
    unfold add_key. destruct Hl1 as [->|[-> Hfresh]].
    + rewrite decide_True; [done|]. apply list_elem_of_fmap. exists ml.
      split; [done|]. apply list_elem_of_lookup. eauto.
    + rewrite decide_False by done. by rewrite fmap_app.
Qed.

Lemma unordered_keys_in_arrival_order_witness :
  let c := Samples.parser UnorderedGroupMode Samples.first_word "" 10 nop in
  let ls := Samples.line 3 <$> ["G:2 event"; "G:1 event"; "G:2 one"] in
  modeHandler c = UnorderedGroupMode ∧ parser_ok c ∧
  ∃ c' es ks,
    HandleAll c [] ls = Ret (c', [], es) ∧
    Forall2 (λ l k, ∃ i, disjoint (expressionRegex c) (l_text l) = Ret (k, i)) ls ks ∧
    key <$> multilines c' = foldl add_key (key <$> multilines c) ks.
Proof.
  intros c ls.
  assert (Hok : parser_ok c) by apply sample_parser_ok.
  split; [reflexivity|]. split; [exact Hok|].
  apply (unordered_keys_in_arrival_order c [] ls eq_refl Hok).
Defined.

Example unordered_keys_example :
  ('(c', _, _) ← HandleAll (Samples.parser UnorderedGroupMode Samples.first_word "" 10 nop)
                   [] (Samples.line 3 <$> ["G:2 event"; "G:1 event"; "G:2 one"]);
   Ret (key <$> multilines c'))
  = Ret ["G:2"; "G:1"].
Proof. reflexivity. Qed.

(** ** The continue mode *)

(** X13. In continue mode a line without continuation mark is never
    buffered: handling it makes exactly one downstream call and leaves the
    slot without lines.  When the slot was empty the line is passed on as it
    came, with its own labels and timestamp, and the parser is untouched;
    otherwise the record is completed with the line and delivered with the
    timestamp it had. *)
Theorem continue_mode_unmarked_line (c : multiLineParser) (w : list Delivery)
    (l : option (gmap string string)) (t : Z) (e inv' : string) (now : Z)
    (ml : multilineEntry) :
  modeHandler c = ContinueMode → multiline c = Some ml → 0 <= lines ml → parser_ok c →
  disjoint (expressionRegex c) e = Ret ("", inv') →
  ∃ c' d ml',
    Handle c w l t e now = Ret (c', w ++ [d], next c w d) ∧
    multiline c' = Some ml' ∧ lines ml' = 0 ∧
    d_time d = (if lines ml >? 0 then timestamp ml else t) ∧
    (lines ml = 0 →
     c' = c ∧ d = {| d_labels := default ∅ l; d_time := t; d_entry := e |}).
Proof.
  intros Hmode Hml Hpos (Hexpr & Hfirst & Hnext) Hdis.
  unfold Handle. rewrite Hmode. unfold handleContinueMode. rewrite Hml. simpl.
  rewrite Hdis. simpl.
  destruct (Z.gtb_spec (lines ml) 0) as [Hgt|Hle].
  - destruct (selection_returns (nextLineRegex c) e Hnext) as [x ->]. simpl.
    eexists _, _, _. split; [reflexivity|]. split; [reflexivity|].
    split; [done|]. split; [done|]. lia.
  - eexists _, _, ml. split; [reflexivity|]. split; [done|].
    split; [lia|]. split; [done|]. done.
Qed.

Lemma continue_mode_unmarked_line_witness :
  let ml := Samples.record "" "event" 1 0 7 in
  let c := set_multiline (Samples.parser ContinueMode Samples.continued " " 10 Samples.failing)
             ml in
  modeHandler c = ContinueMode ∧ multiline c = Some ml ∧ 0 <= lines ml ∧ parser_ok c ∧
  disjoint (expressionRegex c) "one" = Ret ("", "one") ∧
  ∃ c' d ml',
    Handle c [] None 9 "one" 11 = Ret (c', [] ++ [d], next c [] d) ∧
    multiline c' = Some ml' ∧ lines ml' = 0 ∧
    d_time d = (if lines ml >? 0 then timestamp ml else 9) ∧
    (lines ml = 0 →
     c' = c ∧ d = {| d_labels := default ∅ None; d_time := 9; d_entry := "one" |}).
Proof.
  intros ml c.
  assert (Hpos : 0 <= lines ml) by (simpl; lia).
  assert (Hok : parser_ok c) by (split; [apply continued_ok | by split]).
  do 2 (split; [reflexivity|]). split; [exact Hpos|]. split; [exact Hok|].
  split; [reflexivity|].
  apply (continue_mode_unmarked_line c [] None 9 "one" "one" 11 ml eq_refl eq_refl Hpos Hok
           eq_refl).
Defined.
